(** * transmission_bot: the search-and-select workflow of [main.py]

    A shallow embedding of the Telegram bot that searches Jackett and hands a
    chosen result to Transmission.

    - JSON values and Python dicts ([value], [gmap string value]);
    - exceptions as an outcome type, handlers in a small monad over the
      process-wide [search_results_cache] and the trace of calls made to the
      chat gateway, Jackett and Transmission;
    - the [ConversationHandler] table of [main] as a dispatch function on a
      per-user conversation state.

    A string is a sequence of characters with code points below 256, one
    character for each; Python text with other characters has no counterpart
    here.  The pictographs of the messages and the two float formats are
    parameters of the message texts; JSON numbers are integers.  Calls to the
    chat gateway are taken to succeed.  The bot is modelled twice: keyed by
    user, for updates that carry a new message or a callback query and users
    who each write in one chat; and keyed by chat and user, as the library
    keeps its conversations, with edited messages among the updates. *)

From stdpp Require Import gmap strings list pretty.
From Stdlib Require Import ZArith QArith Ascii Sorted Lia.

Open Scope Z_scope.

(** ** Values and dicts *)

(** The JSON scalars the provider's fields carry: [null], an integer, a
    string. *)
Inductive value :=
  | VNone
  | VInt (n : Z)
  | VStr (s : string).

#[global] Instance value_eq_dec : EqDecision value.
Proof. solve_decision. Defined.

Abbreviation dict := (gmap string value).

(** [d.get(k, dflt)] *)
Definition get (k : string) (dflt : value) (d : dict) : value :=
  default dflt (d !! k).
#[global] Arguments get : simpl never.

(** [k in d] *)
Definition has_key (k : string) (d : dict) : bool :=
  bool_decide (is_Some (d !! k)).

(** Python truthiness: [not v] is [negb (truthy v)]. *)
Definition truthy (v : value) : bool :=
  match v with
  | VNone => false
  | VInt n => negb (Z.eqb n 0)
  | VStr s => negb (String.eqb s "")
  end.

(** ** Exceptions *)

Inductive exn_kind :=
  | TransmissionError
  | ValueError
  | TypeError
  | IndexError
  | OverflowError
  | AttributeError
  | OtherException.

(** A raised exception: its class and [str(e)]. *)
Record exn := Exn { kind : exn_kind; message : string }.

Inductive outcome (A : Type) :=
  | Ret (a : A)
  | Raise (e : exn).
Arguments Ret {A} a.
Arguments Raise {A} e.

(** ** Search Provider Adapter: [search_jackett] *)

(** Python's [<] on two sort keys is defined between two integers and between
    two strings; every other pair raises [TypeError]. *)
Definition comparable (a b : value) : bool :=
  match a, b with
  | VInt _, VInt _ => true
  | VStr _, VStr _ => true
  | _, _ => false
  end.

Definition value_leb (a b : value) : bool :=
  match a, b with
  | VInt x, VInt y => x <=? y
  | VStr s, VStr t => String.leb s t
  | _, _ => false
  end.

(** One step of a stable descending sort: [x] comes from the left of every
    element of [l] in the input, so it is placed before the first element
    whose key is not greater than its own. *)
Fixpoint insert_desc (key : dict → value) (x : dict) (l : list dict) : list dict :=
  match l with
  | [] => [x]
  | y :: l' =>
      if value_leb (key y) (key x) then x :: y :: l'
      else y :: insert_desc key x l'
  end.

Definition sort_desc (key : dict → value) (l : list dict) : list dict :=
  foldr (insert_desc key) [] l.

Definition not_supported : exn :=
  Exn TypeError "'<' not supported between instances".

(** [sorted(l, key=key, reverse=True)].  CPython's sort is stable, also with
    [reverse=True].  With fewer than two elements no key is compared; with two
    or more, sorting compares keys until the order is settled, which raises
    [TypeError] unless the keys are all integers or all strings. *)
Definition sorted_reverse (key : dict → value) (l : list dict) : outcome (list dict) :=
  match l with
  | [] => Ret l
  | [_] => Ret l
  | x :: _ =>
      if forallb (λ y, comparable (key x) (key y)) l
      then Ret (sort_desc key l)
      else Raise not_supported
  end.

(** [lambda x: x.get('Seeders', 0)] *)
Definition seeders_key (x : dict) : value := get "Seeders" (VInt 0) x.

(** The magnet link or, failing that, the download link (lines 126-128). *)
Definition resolve_magnet (result : dict) : value :=
  let magnet := get "MagnetUri" (VStr "") result in
  if negb (truthy magnet) && has_key "Link" result
  then get "Link" (VStr "") result
  else magnet.

(** The dict appended to [formatted_results] for one raw result. *)
Definition format_result (result : dict) : dict :=
  <["id" := get "Guid" (VStr "") result]>
  (<["title" := get "Title" (VStr "Unknown") result]>
  (<["size" := get "Size" (VInt 0) result]>
  (<["seeds" := get "Seeders" (VInt 0) result]>
  (<["peers" := get "Peers" (VInt 0) result]>
  (<["magnet" := resolve_magnet result]>
  (<["tracker" := get "Tracker" (VStr "Unknown") result]> ∅)))))).

(** What [response.json()] yields: it raises (or the document is not an object
    whose ['Results'] is a list of objects, so that a later step raises), or it
    is an object with an optional ['Results'] list. *)
Inductive json_body :=
  | BodyInvalid
  | BodyResults (results : option (list dict)).

(** What [requests.get] does: it raises (network error, timeout), or it returns
    a response. *)
Inductive http_outcome :=
  | RequestError
  | Response (status_code : Z) (body : json_body).

(** The body of the [try] block of [search_jackett], lines 101-140. *)
Definition search_jackett_try (http : http_outcome) : outcome (list dict) :=
  match http with
  | RequestError => Raise (Exn OtherException "request failed")
  | Response status_code body =>
      if negb (status_code =? 200) then Ret []
      else
        match body with
        | BodyInvalid => Raise (Exn OtherException "unexpected response body")
        | BodyResults r =>
            let results := default [] r in
            match sorted_reverse seeders_key results with
            | Raise e => Raise e
            | Ret results => Ret (map format_result (take 10 results))
            end
        end
  end.

(** [search_jackett]: any exception is logged and turned into [[]]. *)
Definition search_jackett (http : http_outcome) : list dict :=
  match search_jackett_try http with
  | Ret formatted_results => formatted_results
  | Raise _ => []
  end.

(** ** Presentation data *)

(** The four branches of [format_size].  The three scaled branches format a
    float quotient with two decimals; they are kept symbolic here and rendered
    in section [Rendering]. *)
Inductive size_str :=
  | SizeB (size_bytes : Z)
  | SizeKB (size_bytes : Z)
  | SizeMB (size_bytes : Z)
  | SizeGB (size_bytes : Z).

(** The least integer whose quotient by [1024*1024*1024] is too large for a
    float: the quotient rounds to a finite float below [2^1024 - 2^970]. *)
Definition too_large_for_float : Z := 2 ^ 1054 - 2 ^ 1000.

(** [format_size]: the comparison [size_bytes < 1024] raises on a value that
    is not a number, and the division of the last branch raises when the
    quotient does not fit a float (the other quotients are below 1024). *)
Definition format_size (size_bytes : value) : outcome size_str :=
  match size_bytes with
  | VInt n =>
      if n <? 1024 then Ret (SizeB n)
      else if n <? 1024 * 1024 then Ret (SizeKB n)
      else if n <? 1024 * 1024 * 1024 then Ret (SizeMB n)
      else if n <? too_large_for_float then Ret (SizeGB n)
      else Raise (Exn OverflowError "integer division result too large for a float")
  | VNone =>
      Raise (Exn TypeError
               "'<' not supported between instances of 'NoneType' and 'int'")
  | VStr _ =>
      Raise (Exn TypeError
               "'<' not supported between instances of 'str' and 'int'")
  end.

(** One row of the inline keyboard: what the label is built from, and the
    callback payload. *)
Inductive button_label :=
  | TorrentLabel (number : nat) (torrent : dict) (size : size_str)
  | CancelLabel.

Record button := Button { label : button_label; callback_data : string }.

(** A job as listed by Transmission; [percent_done] is a float in the source. *)
Record job := Job {
  name : string;
  percent_done : Q;
  job_status : string;
  total_size : Z;
  rate_download : Z;
  rate_upload : Z
}.

(** The messages the handlers send, with the data their text is built from. *)
Inductive reply :=
  | NotAuthorized
  | Greeting
  | Searching (query : string)
  | NoResults
  | SelectPrompt (keyboard : list button)
  | SearchFailed (detail : string)
  | SearchCancelled
  | InvalidSelection
  | NoMagnet
  | Adding (title : value)
  | Added (title : value) (size : size_str) (tracker : value) (now : string)
  | AddFailed (detail : string)
  | SelectionFailed (detail : string)
  | NoTorrents
  | StatusMessage (shown : list (nat * job)) (more : option nat)
  | StatusFailed (detail : string)
  | OperationCancelled
  | ErrorOccurred.

(** The calls a handler makes to its collaborators, in order. *)
Inductive effect :=
  | ReplyText (r : reply)          (* update.message.reply_text *)
  | EditText (r : reply)           (* edit_text / edit_message_text *)
  | AnswerQuery                    (* query.answer() *)
  | JackettGet (query : string)    (* requests.get *)
  | TransmissionClient             (* transmission_rpc.Client(...) *)
  | AddTorrent (magnet_link : value)
  | GetTorrents.

(** ** The handler monad *)

(** What a handler can change: the module-level [search_results_cache], and the
    calls made so far. *)
Record world := World {
  search_results_cache : gmap Z (list dict);
  trace : list effect
}.

Definition M (A : Type) : Type := world → outcome A * world.

#[global] Instance M_ret : MRet M := λ A a w, (Ret a, w).

#[global] Instance M_bind : MBind M := λ A B f m w,
  match m w with
  | (Ret a, w') => f a w'
  | (Raise e, w') => (Raise e, w')
  end.

Definition lift {A} (o : outcome A) : M A := λ w, (o, w).

Definition emit (x : effect) : M unit := λ w,
  (Ret (), World (search_results_cache w) (trace w ++ [x])).

Definition read_cache : M (gmap Z (list dict)) := λ w,
  (Ret (search_results_cache w), w).

Definition write_cache (c : gmap Z (list dict)) : M unit := λ w,
  (Ret (), World c (trace w)).

(** [try: body except Exception as e: handler e] *)
Definition try_except {A} (body : M A) (handler : exn → M A) : M A := λ w,
  match body w with
  | (Ret a, w') => (Ret a, w')
  | (Raise e, w') => handler e w'
  end.

(** ** Collaborators *)

(** What Jackett and Transmission answer while one update is handled, and
    what the clock shows ([datetime.now().strftime(...)]). *)
Record env := Env {
  jackett : string → http_outcome;
  connect : option exn;
  add_torrent : value → option exn;
  get_torrents : outcome (list job);
  now : string
}.

Definition raise_if (o : option exn) : M unit :=
  match o with
  | None => mret ()
  | Some e => lift (Raise e)
  end.

(** [init_transmission]: a failure to connect is logged and raised again. *)
Definition init_transmission (e : env) : M unit :=
  emit TransmissionClient ;; raise_if (connect e).

(** [str(e)[:200]] *)
Definition str200 (e : exn) : string := String.substring 0 200 (message e).

(** ** [int(query.data)] *)

(** [c.isspace()], the characters [str.strip] removes: tab to carriage
    return, the four separators 28 to 31, the space, next line (133) and the
    no-break space (160). *)
Definition is_space (c : ascii) : bool :=
  let n := N_of_ascii c in
  ((9 <=? n) && (n <=? 13) || (28 <=? n) && (n <=? 32)
   || (n =? 133) || (n =? 160))%N.

(** The characters [int] skips around a number: those of [is_space] but the
    four separators 28 to 31, which it rejects. *)
Definition int_space (c : ascii) : bool :=
  let n := N_of_ascii c in
  ((9 <=? n) && (n <=? 13) || (n =? 32) || (n =? 133) || (n =? 160))%N.

Definition digit_of (c : ascii) : option Z :=
  let n := N_of_ascii c in
  if ((48 <=? n) && (n <=? 57))%N then Some (Z.of_N n - 48) else None.

Fixpoint lstrip (s : list ascii) : list ascii :=
  match s with
  | c :: s' => if is_space c then lstrip s' else s
  | [] => []
  end.

Definition strip (s : list ascii) : list ascii :=
  reverse (lstrip (reverse (lstrip s))).

(** Decimal digits, single underscores allowed between two digits.
    [after_digit] tells whether the previous character was a digit. *)
Fixpoint digits (acc : Z) (after_digit : bool) (s : list ascii) : option Z :=
  match s with
  | [] => if after_digit then Some acc else None
  | c :: s' =>
      match digit_of c with
      | Some d => digits (10 * acc + d) true s'
      | None =>
          if Ascii.eqb c "_" && after_digit then digits acc false s' else None
      end
  end.

Fixpoint int_lstrip (s : list ascii) : list ascii :=
  match s with
  | c :: s' => if int_space c then int_lstrip s' else s
  | [] => []
  end.

Definition int_strip (s : list ascii) : list ascii :=
  reverse (int_lstrip (reverse (int_lstrip s))).

(** White space around, then an optional sign directly followed by the
    digits. *)
Definition parse_int (s : list ascii) : option Z :=
  match int_strip s with
  | "-"%char :: s' => Z.opp <$> digits 0 false s'
  | "+"%char :: s' => digits 0 false s'
  | s' => digits 0 false s'
  end.

Definition single_quote : ascii := ascii_of_N 39.
Definition double_quote : ascii := ascii_of_N 34.
Definition backslash : ascii := ascii_of_N 92.

(** [c.isprintable()] *)
Definition is_printable (c : ascii) : bool :=
  let n := N_of_ascii c in
  ((32 <=? n) && (n <=? 126) || (161 <=? n) && negb (n =? 173))%N.

(** One lower-case hexadecimal digit. *)
Definition hex_digit (n : N) : ascii :=
  ascii_of_N (if (n <? 10)%N then 48 + n else 87 + n).

(** How [repr] writes one character between the quotes [quote]. *)
Definition repr_char (quote c : ascii) : list ascii :=
  let n := N_of_ascii c in
  if Ascii.eqb c quote || Ascii.eqb c backslash then [backslash; c]
  else if (n =? 9)%N then [backslash; "t"%char]
  else if (n =? 10)%N then [backslash; "n"%char]
  else if (n =? 13)%N then [backslash; "r"%char]
  else if is_printable c then [c]
  else [backslash; "x"%char; hex_digit (n / 16); hex_digit (n mod 16)].

(** [repr(s)]: double quotes when the text has a single quote and no double
    quote, single quotes otherwise. *)
Definition py_repr (s : string) : string :=
  let chars := String.list_ascii_of_string s in
  let quote :=
    if bool_decide (single_quote ∈ chars)
       && negb (bool_decide (double_quote ∈ chars))
    then double_quote else single_quote in
  String.string_of_list_ascii
    (quote :: concat (map (repr_char quote) chars) ++ [quote]).

(** The [ValueError] of [int]: its text ends with the first 200 characters of
    [repr(s)]. *)
Definition invalid_literal (s : string) : exn :=
  Exn ValueError
    ("invalid literal for int() with base 10: "
     +:+ String.substring 0 200 (py_repr s)).

(** The longest run of digits [int] converts ([sys.get_int_max_str_digits()],
    from Python 3.11 on); on a longer one it raises another [ValueError]. *)
Definition int_max_str_digits : nat := 4300.

(** [int(s)] on a string of at most [int_max_str_digits] characters. *)
Definition py_int (s : string) : outcome Z :=
  match parse_int (String.list_ascii_of_string s) with
  | Some n => Ret n
  | None => Raise (invalid_literal s)
  end.

(** [l[i]]: a negative index counts from the end of the list. *)
Definition list_index {A} (l : list A) (i : Z) : outcome A :=
  let n := Z.of_nat (length l) in
  let j := if i <? 0 then i + n else i in
  if (0 <=? j) && (j <? n) then
    match l !! Z.to_nat j with
    | Some x => Ret x
    | None => Raise (Exn IndexError "list index out of range")
    end
  else Raise (Exn IndexError "list index out of range").

(** [not l] on a list. *)
Definition is_empty {A} (l : list A) : bool :=
  match l with [] => true | _ => false end.

(** ** Handlers *)

(** The value a handler returns to the [ConversationHandler]. *)
Inductive state :=
  | SEARCH
  | SELECT_TORRENT
  | END.

#[global] Instance state_eq_dec : EqDecision state.
Proof. solve_decision. Defined.

Section Handlers.

Variable ALLOWED_USERS : list Z.

Definition is_user_allowed (user_id : Z) : bool :=
  bool_decide (user_id ∈ ALLOWED_USERS).

Definition check_user (user_id : Z) : M bool :=
  if negb (is_user_allowed user_id) then
    emit (ReplyText NotAuthorized) ;; mret false
  else mret true.

Definition start (user_id : Z) : M state :=
  allowed ← check_user user_id;
  if negb allowed then mret END
  else emit (ReplyText Greeting) ;; mret SEARCH.

(** The loop of lines 207-221: one button per result. *)
Fixpoint keyboard_rows (i : nat) (results : list dict) : outcome (list button) :=
  match results with
  | [] => Ret []
  | torrent :: rest =>
      match format_size (get "size" (VInt 0) torrent) with
      | Raise e => Raise e
      | Ret size_str =>
          match keyboard_rows (S i) rest with
          | Raise e => Raise e
          | Ret rows =>
              Ret (Button (TorrentLabel (S i) torrent size_str) (pretty i) :: rows)
          end
      end
  end.

Definition search_torrent (e : env) (user_id : Z) (query : string) : M state :=
  allowed ← check_user user_id;
  if negb allowed then mret END
  else
    emit (ReplyText (Searching query)) ;;
    try_except
      (emit (JackettGet query) ;;
       let results := search_jackett (jackett e query) in
       if is_empty results then
         emit (EditText NoResults) ;; mret SEARCH
       else
         cache ← read_cache;
         write_cache (<[user_id := results]> cache) ;;
         keyboard ← lift (keyboard_rows 0 results);
         emit (EditText (SelectPrompt (keyboard ++ [Button CancelLabel "cancel"]))) ;;
         mret SELECT_TORRENT)
      (λ ex, emit (EditText (SearchFailed (str200 ex))) ;; mret SEARCH).

Definition select_torrent (e : env) (user_id : Z) (data : string) : M state :=
  emit AnswerQuery ;;
  if String.eqb data "cancel" then
    emit (EditText SearchCancelled) ;; mret SEARCH
  else
    try_except
      (torrent_index ← lift (py_int data);
       cache ← read_cache;
       let user_results := default [] (cache !! user_id) in
       if is_empty user_results
          || (Z.of_nat (length user_results) <=? torrent_index) then
         emit (EditText InvalidSelection) ;; mret SEARCH
       else
         selected_torrent ← lift (list_index user_results torrent_index);
         let torrent_title := get "title" (VStr "Unknown") selected_torrent in
         let magnet_link := get "magnet" (VStr "") selected_torrent in
         if negb (truthy magnet_link) then
           emit (EditText NoMagnet) ;; mret SEARCH
         else
           emit (EditText (Adding torrent_title)) ;;
           init_transmission e ;;
           emit (AddTorrent magnet_link) ;;
           raise_if (add_torrent e magnet_link) ;;
           size_str ← lift (format_size (get "size" (VInt 0) selected_torrent));
           emit (EditText (Added torrent_title size_str
                             (get "tracker" (VStr "Unknown") selected_torrent)
                             (now e))) ;;
           cache ← read_cache;
           write_cache (delete user_id cache) ;;
           mret SEARCH)
      (λ ex,
         match kind ex with
         | TransmissionError =>
             emit (EditText (AddFailed (str200 ex))) ;; mret SEARCH
         | _ =>
             emit (EditText (SelectionFailed (str200 ex))) ;; mret SEARCH
         end).

(** [enumerate(l, i)] *)
Fixpoint enumerate {A} (i : nat) (l : list A) : list (nat * A) :=
  match l with
  | [] => []
  | x :: l' => (i, x) :: enumerate (S i) l'
  end.

Definition status (e : env) (user_id : Z) : M state :=
  allowed ← check_user user_id;
  if negb allowed then mret END
  else
    try_except
      (init_transmission e ;;
       emit GetTorrents ;;
       torrents ← lift (get_torrents e);
       if is_empty torrents then
         emit (ReplyText NoTorrents) ;; mret SEARCH
       else
         let more :=
           if (10 <? length torrents)%nat then Some (length torrents - 10)%nat
           else None in
         emit (ReplyText (StatusMessage (enumerate 1 (take 10 torrents)) more)) ;;
         mret SEARCH)
      (λ ex, emit (ReplyText (StatusFailed (str200 ex))) ;; mret SEARCH).

Definition cancel (user_id : Z) : M state :=
  cache ← read_cache;
  write_cache (delete user_id cache) ;;
  emit (ReplyText OperationCancelled) ;;
  mret END.

End Handlers.

(** ** The conversation handler of [main] *)

(** An update with a new message, or a callback query.  An edited message,
    which the command and message handlers match as well and for which
    [update.message] is [None], is not among them; [delivered] below has
    it. *)
Inductive update_kind :=
  | Command (command : string)        (* "/start", "/status", "/cancel", ... *)
  | TextMessage (text : string)       (* filters.TEXT & ~filters.COMMAND *)
  | CallbackQuery (data : string).

#[global] Instance update_kind_eq_dec : EqDecision update_kind.
Proof. solve_decision. Defined.

Record update := Update { effective_user : Z; content : update_kind }.

Inductive callback :=
  | h_start
  | h_search_torrent (query : string)
  | h_select_torrent (data : string)
  | h_status
  | h_cancel.

(** [entry_points=[CommandHandler("start", start)]] *)
Definition entry_points (c : update_kind) : option callback :=
  match c with
  | Command cmd => if String.eqb cmd "start" then Some h_start else None
  | _ => None
  end.

(** The [states] table, lines 431-438. *)
Definition states (s : state) (c : update_kind) : option callback :=
  match s, c with
  | SEARCH, TextMessage text => Some (h_search_torrent text)
  | SEARCH, Command cmd =>
      if String.eqb cmd "start" then Some h_start
      else if String.eqb cmd "status" then Some h_status
      else None
  | SELECT_TORRENT, CallbackQuery data => Some (h_select_torrent data)
  | _, _ => None
  end.

(** [fallbacks=[CommandHandler("cancel", cancel)]] *)
Definition fallbacks (c : update_kind) : option callback :=
  match c with
  | Command cmd => if String.eqb cmd "cancel" then Some h_cancel else None
  | _ => None
  end.

(** Which callback, if any, the conversation handler runs for an update of a
    user whose conversation is in state [s] ([END]: no conversation).  Entry
    points start a conversation; inside one, the handlers of the current state
    come first and the fallbacks last. *)
Definition check_update (s : state) (c : update_kind) : option callback :=
  match s with
  | END => entry_points c
  | _ =>
      match states s c with
      | Some h => Some h
      | None => fallbacks c
      end
  end.

(** The bot between two updates: the state of every user's conversation (no
    entry: no conversation) and the result cache.  The library keys a
    conversation by chat and user; here a user writes in one chat, so that the
    conversation and the cache entry have the same key.  [chat_bot] below has
    the library's key. *)
Record bot := Bot {
  conversations : gmap Z state;
  cache : gmap Z (list dict)
}.

Definition initial : bot := Bot ∅ ∅.

Definition conversation_state (b : bot) (user_id : Z) : state :=
  default END (conversations b !! user_id).

Definition update_state (user_id : Z) (s : state) (convs : gmap Z state) : gmap Z state :=
  match s with
  | END => delete user_id convs
  | _ => <[user_id := s]> convs
  end.

Section Dispatch.

Variable ALLOWED_USERS : list Z.

Definition run_callback (e : env) (user_id : Z) (h : callback) : M state :=
  match h with
  | h_start => start ALLOWED_USERS user_id
  | h_search_torrent query => search_torrent ALLOWED_USERS e user_id query
  | h_select_torrent data => select_torrent e user_id data
  | h_status => status ALLOWED_USERS e user_id
  | h_cancel => cancel user_id
  end.

(** One update, handled to the end: the bot afterwards and the calls made.  An
    update no handler matches changes nothing; an exception that leaves a
    callback goes to [error_handler] and the conversation keeps its state. *)
Definition handle_update (e : env) (b : bot) (u : update) : bot * list effect :=
  let user_id := effective_user u in
  match check_update (conversation_state b user_id) (content u) with
  | None => (b, [])
  | Some h =>
      match run_callback e user_id h (World (cache b) []) with
      | (Ret s, w) =>
          (Bot (update_state user_id s (conversations b)) (search_results_cache w),
           trace w)
      | (Raise _, w) =>
          (Bot (conversations b) (search_results_cache w),
           trace w ++ [ReplyText ErrorOccurred])
      end
  end.

(** A run: updates handled one after the other, each with what the
    collaborators answer at that time. *)
Fixpoint run (b : bot) (events : list (env * update)) : bot :=
  match events with
  | [] => b
  | (e, u) :: rest => run (handle_update e b u).1 rest
  end.

End Dispatch.

(** ** Chats and edited messages *)

(** [ConversationHandler], with the defaults that [main] leaves in place,
    keeps one conversation for each pair of a chat and a user, while
    [search_results_cache] has one entry for each user.  [CommandHandler] and
    [MessageHandler] also match an edited message; [update.message] is then
    [None], and [update.effective_message] is the edited message. *)
Inductive delivered :=
  | Fresh (c : update_kind)            (* update.message, update.callback_query *)
  | EditedCommand (command : string)   (* update.edited_message, a command *)
  | EditedText (text : string).        (* update.edited_message, other text *)

Record chat_update := ChatUpdate {
  effective_chat : Z;
  from_user : Z;
  delivery : delivered
}.

(** What the filters of the handlers see. *)
Definition update_kind_of (d : delivered) : update_kind :=
  match d with
  | Fresh c => c
  | EditedCommand command => Command command
  | EditedText text => TextMessage text
  end.

Definition is_edited (d : delivered) : bool :=
  match d with
  | Fresh _ => false
  | _ => true
  end.

(** [update.message.<attribute>] when [update.message] is [None]. *)
Definition no_attribute (attribute : string) : exn :=
  Exn AttributeError
    ("'NoneType' object has no attribute '" +:+ attribute +:+ "'").

(** The bot between two updates, with the conversations under the library's
    key. *)
Record chat_bot := ChatBot {
  chat_conversations : gmap (Z * Z) state;
  chat_cache : gmap Z (list dict)
}.

Definition chat_initial : chat_bot := ChatBot ∅ ∅.

Definition chat_state (b : chat_bot) (chat_id user_id : Z) : state :=
  default END (chat_conversations b !! (chat_id, user_id)).

Definition update_chat_state (key : Z * Z) (s : state)
    (convs : gmap (Z * Z) state) : gmap (Z * Z) state :=
  match s with
  | END => delete key convs
  | _ => <[key := s]> convs
  end.

Section Chats.

Variable ALLOWED_USERS : list Z.

(** The handlers on an edited message.  [check_user] cannot send its refusal
    (line 74); [start] cannot send its greeting (line 174); [search_torrent]
    fails on [update.message.text] (line 182); [status] fails on the reply
    that ends each path of its [try] and again, uncaught, on the reply of its
    [except] (line 371); [cancel] has removed the entry when its reply fails
    (lines 381-383). *)
Definition check_user_edited (user_id : Z) : M bool :=
  if negb (is_user_allowed ALLOWED_USERS user_id) then
    lift (Raise (no_attribute "reply_text"))
  else mret true.

Definition start_edited (user_id : Z) : M state :=
  allowed ← check_user_edited user_id;
  if negb allowed then mret END
  else lift (Raise (no_attribute "reply_text")).

Definition search_torrent_edited (user_id : Z) : M state :=
  allowed ← check_user_edited user_id;
  if negb allowed then mret END
  else lift (Raise (no_attribute "text")).

Definition status_edited (e : env) (user_id : Z) : M state :=
  allowed ← check_user_edited user_id;
  if negb allowed then mret END
  else
    try_except
      (init_transmission e ;;
       emit GetTorrents ;;
       _ ← lift (get_torrents e);
       lift (Raise (no_attribute "reply_text")))
      (λ _, lift (Raise (no_attribute "reply_text"))).

Definition cancel_edited (user_id : Z) : M state :=
  cache ← read_cache;
  write_cache (delete user_id cache) ;;
  lift (Raise (no_attribute "reply_text")).

(** The callback on the update as delivered.  [select_torrent] handles
    callback queries, which are never edited messages, and does not look at
    [update.message]. *)
Definition run_delivered (e : env) (user_id : Z) (d : delivered) (h : callback) :
    M state :=
  if is_edited d then
    match h with
    | h_start => start_edited user_id
    | h_search_torrent _ => search_torrent_edited user_id
    | h_select_torrent data => select_torrent e user_id data
    | h_status => status_edited e user_id
    | h_cancel => cancel_edited user_id
    end
  else run_callback ALLOWED_USERS e user_id h.

(** One update, handled to the end, as [handle_update] with the conversation
    of the chat and the user. *)
Definition handle_chat_update (e : env) (b : chat_bot) (u : chat_update) :
    chat_bot * list effect :=
  let key := (effective_chat u, from_user u) in
  match check_update (chat_state b (effective_chat u) (from_user u))
          (update_kind_of (delivery u)) with
  | None => (b, [])
  | Some h =>
      match run_delivered e (from_user u) (delivery u) h
              (World (chat_cache b) []) with
      | (Ret s, w) =>
          (ChatBot (update_chat_state key s (chat_conversations b))
             (search_results_cache w),
           trace w)
      | (Raise _, w) =>
          (ChatBot (chat_conversations b) (search_results_cache w),
           trace w ++ [ReplyText ErrorOccurred])
      end
  end.

Fixpoint chat_run (b : chat_bot) (events : list (env * chat_update)) : chat_bot :=
  match events with
  | [] => b
  | (e, u) :: rest => chat_run (handle_chat_update e b u).1 rest
  end.

End Chats.

(** The states of section 4.3 of the specification. *)
Inductive ConversationState :=
  | Idle
  | AwaitingSelection.

Definition spec_state (s : state) : ConversationState :=
  match s with
  | SELECT_TORRENT => AwaitingSelection
  | _ => Idle
  end.

Definition has_entry (b : bot) (user_id : Z) : Prop :=
  is_Some (cache b !! user_id).

Definition daemon_call (x : effect) : bool :=
  match x with
  | TransmissionClient | AddTorrent _ | GetTorrents => true
  | _ => false
  end.

(** ** Message texts *)

(** The pictographs that open some messages. *)
Inductive glyph :=
  | g_search | g_cross | g_hourglass | g_check | g_inbox
  | g_down | g_up | g_stop | g_checking | g_unknown | g_bullet.

Definition upper (c : ascii) : ascii :=
  let n := N_of_ascii c in
  if ((97 <=? n) && (n <=? 122))%N then ascii_of_N (n - 32) else c.

Definition lower (c : ascii) : ascii :=
  let n := N_of_ascii c in
  if ((65 <=? n) && (n <=? 90))%N then ascii_of_N (n + 32) else c.

Fixpoint map_string (f : ascii → ascii) (s : string) : string :=
  match s with
  | EmptyString => EmptyString
  | String c s' => String (f c) (map_string f s')
  end.

(** [s.capitalize()] *)
Definition capitalize (s : string) : string :=
  match s with
  | EmptyString => EmptyString
  | String c s' => String (upper c) (map_string lower s')
  end.

(** [str(v)] inside an f-string. *)
Definition str (v : value) : string :=
  match v with
  | VNone => "None"
  | VInt n => pretty n
  | VStr s => s
  end.

Definition newline : string := String (ascii_of_N 10) EmptyString.

Section Rendering.

(** How the pictographs are written, and the two float formats of the source:
    [fmt_2f a b] stands for [f"{a/b:.2f}"], [fmt_1f x] for [f"{x:.1f}"]. *)
Variable glyph_text : glyph → string.
Variable fmt_2f : Z → Z → string.
Variable fmt_1f : Q → string.

Definition size_text (s : size_str) : string :=
  match s with
  | SizeB n => pretty n +:+ " B"
  | SizeKB n => fmt_2f n 1024 +:+ " KB"
  | SizeMB n => fmt_2f n (1024 * 1024) +:+ " MB"
  | SizeGB n => fmt_2f n (1024 * 1024 * 1024) +:+ " GB"
  end.

(** [format_size] on a field of a job: a size or a rate of the daemon, a
    64-bit integer, for which [format_size] returns. *)
Definition format_size_int (n : Z) : string :=
  match format_size (VInt n) with
  | Ret s => size_text s
  | Raise _ => ""
  end.

(** The label of a button, lines 212-219. *)
Definition button_text (l : button_label) : string :=
  match l with
  | CancelLabel => "Cancel"
  | TorrentLabel number torrent size =>
      let text :=
        pretty number +:+ ". " +:+ str (get "title" (VStr "Unknown") torrent)
        +:+ " (" +:+ size_text size +:+ ") ["
        +:+ str (get "tracker" (VStr "?") torrent) +:+ "] - "
        +:+ str (get "seeds" (VStr "?") torrent) +:+ "/"
        +:+ str (get "peers" (VStr "?") torrent) in
      if (80 <? String.length text)%nat
      then String.substring 0 77 text +:+ "..."
      else text
  end.

Definition status_glyph (status : string) : glyph :=
  if String.eqb status "downloading" then g_down
  else if String.eqb status "seeding" then g_up
  else if String.eqb status "stopped" then g_stop
  else if String.eqb status "checking" then g_checking
  else g_unknown.

(** What one pass of the loop of lines 334-361 adds to the message. *)
Definition job_text (entry : nat * job) : string :=
  let (i, torrent) := entry in
  pretty i +:+ ". " +:+ glyph_text (status_glyph (job_status torrent)) +:+ " "
  +:+ String.substring 0 40 (name torrent)
  +:+ (if (40 <? String.length (name torrent))%nat then "..." else "")
  +:+ newline
  +:+ "   " +:+ glyph_text g_bullet +:+ " Status: "
  +:+ capitalize (job_status torrent) +:+ " ("
  +:+ fmt_1f (Qmult (percent_done torrent) (inject_Z 100)) +:+ "%)" +:+ newline
  +:+ "   " +:+ glyph_text g_bullet +:+ " Size: "
  +:+ format_size_int (total_size torrent) +:+ newline
  +:+ "   " +:+ glyph_text g_bullet +:+ " Speed: " +:+ glyph_text g_down +:+ " "
  +:+ format_size_int (rate_download torrent) +:+ "/s "
  +:+ glyph_text g_up +:+ " "
  +:+ format_size_int (rate_upload torrent) +:+ "/s" +:+ newline +:+ newline.

Definition more_text (more : option nat) : string :=
  match more with
  | Some n => "...and " +:+ pretty n +:+ " more torrents."
  | None => ""
  end.

Definition reply_text (r : reply) : string :=
  match r with
  | NotAuthorized => "Sorry, you are not authorized to use this bot."
  | Greeting =>
      "Hi! I can help you search for torrents and add them to Transmission."
      +:+ newline +:+ newline
      +:+ "Send me a search query to get started." +:+ newline +:+ newline
      +:+ "Commands:" +:+ newline
      +:+ "/start - Start the bot" +:+ newline
      +:+ "/cancel - Cancel current operation" +:+ newline
      +:+ "/status - Check Transmission status"
  | Searching query =>
      glyph_text g_search +:+ " Searching for: " +:+ query +:+ "..."
  | NoResults => "No results found. Please try a different search term."
  | SelectPrompt _ => "Please select a torrent to download:"
  | SearchFailed detail =>
      glyph_text g_cross +:+ " An error occurred while searching: " +:+ detail
      +:+ "... Please try again later."
  | SearchCancelled => "Search cancelled. Send me a new search query."
  | InvalidSelection => "Invalid selection. Please try searching again."
  | NoMagnet =>
      glyph_text g_cross
      +:+ " No magnet link found for this torrent. Please try another one."
  | Adding title =>
      glyph_text g_hourglass +:+ " Adding torrent to Transmission: "
      +:+ str title +:+ "..."
  | Added title size tracker now =>
      glyph_text g_check +:+ " Torrent added to Transmission!"
      +:+ newline +:+ newline
      +:+ "Title: " +:+ str title +:+ newline
      +:+ "Size: " +:+ size_text size +:+ newline
      +:+ "Tracker: " +:+ str tracker +:+ newline
      +:+ "Added at: " +:+ now
  | AddFailed detail =>
      glyph_text g_cross +:+ " Failed to add torrent to Transmission: "
      +:+ detail +:+ "... Please try again later."
  | SelectionFailed detail =>
      glyph_text g_cross
      +:+ " An error occurred while processing your selection: "
      +:+ detail +:+ "... Please try again."
  | NoTorrents => "No torrents in Transmission."
  | StatusMessage shown more =>
      glyph_text g_inbox +:+ " Current Transmission Torrents:"
      +:+ newline +:+ newline
      +:+ foldr (λ entry rest, job_text entry +:+ rest) (more_text more) shown
  | StatusFailed detail =>
      glyph_text g_cross +:+ " Failed to get Transmission status: "
      +:+ detail +:+ "..."
  | OperationCancelled =>
      "Operation cancelled. Send me a search query when you're ready."
  | ErrorOccurred =>
      "Sorry, an error occurred while processing your request. "
      +:+ "Please try again later."
  end.

End Rendering.

(** ** Predicates used in the statements *)

(** [a] may stand before [b] in a list sorted by [key], greatest first. *)
Definition key_ge (key : dict → value) (a b : dict) : Prop :=
  value_leb (key b) (key a) = true.

(** The seed count of a formatted result. *)
Definition seeds (torrent : dict) : value := get "seeds" (VInt 0) torrent.

(** The provider call failed: [requests.get] raised, the status is not 200, or
    the body could not be used. *)
Definition provider_failed (http : http_outcome) : bool :=
  match http with
  | RequestError => true
  | Response status_code body =>
      negb (status_code =? 200)
      || match body with BodyInvalid => true | BodyResults _ => false end
  end.

(** Unfolds the operations of the handler monad. *)
Ltac run_M :=
  cbv [mbind M_bind mret M_ret emit lift read_cache write_cache try_except
       raise_if init_transmission]; simpl.

(** What one callback run for [user_id] can do to the cache. *)
Inductive cache_change (user_id : Z) (c : gmap Z (list dict)) :
    gmap Z (list dict) → Prop :=
  | cache_unchanged : cache_change user_id c c
  | cache_stored results : cache_change user_id c (<[user_id := results]> c)
  | cache_removed : cache_change user_id c (delete user_id c).

(** Splits on the innermost scrutinee of the goal. *)
Ltac split_cases :=
  repeat match goal with
  | |- context [match ?x with _ => _ end] =>
      lazymatch x with
      | context [match _ with _ => _ end] => fail
      | _ => destruct x eqn:?; simpl
      end
  end.

(** The callbacks that start with [check_user]. *)
Definition checks_user (h : callback) : bool :=
  match h with
  | h_start | h_search_torrent _ | h_status => true
  | h_select_torrent _ | h_cancel => false
  end.

(** A conversation that awaits a selection has results to select from. *)
Definition awaiting_has_entry (b : bot) : Prop :=
  ∀ user_id, conversation_state b user_id = SELECT_TORRENT →
             is_Some (cache b !! user_id).

(** A user without a conversation and without cached results. *)
Definition unknown_to (b : bot) (user_id : Z) : Prop :=
  conversations b !! user_id = None ∧ cache b !! user_id = None.

(** ** Scenarios *)

Definition raw (title : string) (seeders : Z) (magnet : string) : dict :=
  <["Title" := VStr title]>
  (<["Seeders" := VInt seeders]>
  (<["MagnetUri" := VStr magnet]>
  (<["Size" := VInt 700]> ∅))).

(** Three raw results with 5, 50 and 10 seeders. *)
Definition ubuntu_results : list dict :=
  [raw "ubuntu-5" 5 "magnet:?xt=5"; raw "ubuntu-50" 50 "magnet:?xt=50";
   raw "ubuntu-10" 10 "magnet:?xt=10"].

Definition jobs (n : nat) : list job :=
  replicate n (Job "debian.iso" (1 # 2) "downloading" 4096 100 0).

Definition provider_up (query : string) : http_outcome :=
  Response 200 (BodyResults (Some ubuntu_results)).

(** Jackett answers; Transmission accepts the torrent and lists 12 jobs. *)
Definition all_up : env :=
  Env provider_up None (λ _, None) (Ret (jobs 12)) "2025-03-20 12:00:00".

(** Transmission refuses the torrent. *)
Definition daemon_refuses : env :=
  Env provider_up None
    (λ _, Some (Exn TransmissionError "duplicate torrent")) (Ret (jobs 12))
    "2025-03-20 12:00:00".

(** The request to Jackett times out. *)
Definition provider_down : env :=
  Env (λ _, RequestError) None (λ _, None) (Ret (jobs 12)) "2025-03-20 12:00:00".

(** User 1 is allowed, has sent /start and is about to send a query. *)
Definition searching : bot :=
  run [1] initial [(all_up, Update 1 (Command "start"))].

(** User 1 has then searched and been shown the three results. *)
Definition awaiting : bot :=
  run [1] searching [(all_up, Update 1 (TextMessage "ubuntu"))].

(** A raw result with a link and no magnet. *)
Definition link_only : dict :=
  <["Link" := VStr "http://tracker/t.torrent"]> (<["Seeders" := VInt 7]> ∅).

(** A single result that has neither a magnet nor a link. *)
Definition bare_results : list dict :=
  [<["Title" := VStr "bare"]> (<["Seeders" := VInt 3]> ∅)].

Definition bare_up : env :=
  Env (λ _, Response 200 (BodyResults (Some bare_results)))
    None (λ _, None) (Ret (jobs 12)) "2025-03-20 12:00:00".

(** User 1 has searched and been shown that single result. *)
Definition awaiting_bare : bot :=
  run [1] searching [(bare_up, Update 1 (TextMessage "bare"))].

(** A decimal digit. *)
Definition is_digit (c : ascii) : Prop := is_Some (digit_of c).

(** A message to the user. *)
Definition is_message (x : effect) : bool :=
  match x with
  | ReplyText _ | EditText _ => true
  | _ => false
  end.

(** The message of [error_handler]. *)
Definition is_error_handler_reply (x : effect) : bool :=
  match x with
  | ReplyText ErrorOccurred | EditText ErrorOccurred => true
  | _ => false
  end.

Definition jackett_call (x : effect) : bool :=
  match x with
  | JackettGet _ => true
  | _ => false
  end.

(** The error text a message carries, if any. *)
Definition error_detail (x : effect) : option string :=
  match x with
  | ReplyText r | EditText r =>
      match r with
      | SearchFailed detail | AddFailed detail
      | SelectionFailed detail | StatusFailed detail => Some detail
      | _ => None
      end
  | _ => None
  end.

(** What the adapter hands out and the cache holds: between 1 and 10 formatted
    results, the best seeded first. *)
Definition result_set (results : list dict) : Prop :=
  results ≠ [] ∧ (length results ≤ 10)%nat ∧
  StronglySorted (key_ge seeds) results ∧
  Forall (λ t, ∃ raw_result, t = format_result raw_result) results.

(** Every cache entry belongs to an allowed user and is a result set. *)
Definition cache_well_formed (ALLOWED_USERS : list Z) (b : bot) : Prop :=
  ∀ user_id results, cache b !! user_id = Some results →
    user_id ∈ ALLOWED_USERS ∧ result_set results.

(** Twelve raw results. *)
Definition many_results : list dict :=
  (λ n, raw "debian" n "magnet:?xt=debian") <$> [3; 1; 4; 1; 5; 9; 2; 6; 5; 3; 5; 8].

(** Names the state, cache and trace a callback ends with. *)
Ltac callback_cases :=
  eexists _, _, _; split; [reflexivity|].

(** ** Start-up: the allow-list and the settings check of [main] *)

(** [s.split(',')] *)
Fixpoint split_comma (s : list ascii) : list (list ascii) :=
  match s with
  | [] => [[]]
  | c :: s' =>
      if Ascii.eqb c "," then [] :: split_comma s'
      else
        match split_comma s' with
        | piece :: pieces => (c :: piece) :: pieces
        | [] => [[c]]
        end
  end.

(** The list comprehension of line 57: blank pieces are skipped, every other
    piece goes through [int] after [strip]; the first piece that is not an
    integer raises. *)
Fixpoint allowed_users_of (pieces : list (list ascii)) : outcome (list Z) :=
  match pieces with
  | [] => Ret []
  | user_id :: rest =>
      if is_empty (strip user_id) then allowed_users_of rest
      else
        match py_int (String.string_of_list_ascii (strip user_id)) with
        | Raise e => Raise e
        | Ret n =>
            match allowed_users_of rest with
            | Raise e => Raise e
            | Ret ns => Ret (n :: ns)
            end
        end
  end.

Definition parse_allowed_users (allowed_users_str : string) : outcome (list Z) :=
  allowed_users_of (split_comma (String.list_ascii_of_string allowed_users_str)).

(** The environment variables the module reads (an unset variable reads as
    the empty string). *)
Record settings := Settings {
  TELEGRAM_BOT_TOKEN : string;
  JACKETT_API_KEY : string;
  TRANSMISSION_USER : string;
  TRANSMISSION_PASSWORD : string;
  ALLOWED_TELEGRAM_USERS : string
}.

Definition append_if (missing : bool) (var : string) (missing_vars : list string) :
    list string :=
  if missing then missing_vars ++ [var] else missing_vars.

(** Lines 404-415 of [main]. *)
Definition missing_vars (cfg : settings) (ALLOWED_USERS : list Z) : list string :=
  append_if (is_empty ALLOWED_USERS) "ALLOWED_TELEGRAM_USERS"
  (append_if (String.eqb (TRANSMISSION_PASSWORD cfg) "") "TRANSMISSION_PASSWORD"
  (append_if (String.eqb (TRANSMISSION_USER cfg) "") "TRANSMISSION_USER"
  (append_if (String.eqb (JACKETT_API_KEY cfg) "") "JACKETT_API_KEY"
  (append_if (String.eqb (TELEGRAM_BOT_TOKEN cfg) "") "TELEGRAM_BOT_TOKEN" [])))).

(** How the program starts: the module fails to load (the allow-list holds
    something that is not an integer), [main] logs what is missing and
    returns, or the bot starts polling. *)
Inductive startup :=
  | ImportFails (e : exn)
  | Exits (missing : list string)
  | Polls (ALLOWED_USERS : list Z).

Definition main (cfg : settings) : startup :=
  match parse_allowed_users (ALLOWED_TELEGRAM_USERS cfg) with
  | Raise e => ImportFails e
  | Ret ALLOWED_USERS =>
      if is_empty (missing_vars cfg ALLOWED_USERS) then Polls ALLOWED_USERS
      else Exits (missing_vars cfg ALLOWED_USERS)
  end.

(** [','.join(pieces)] *)
Fixpoint comma_join (pieces : list string) : string :=
  match pieces with
  | [] => ""
  | [piece] => piece
  | piece :: rest => piece +:+ "," +:+ comma_join rest
  end.

(** Only commas and white space. *)
Definition blank (s : string) : Prop :=
  Forall (λ c, c = ","%char ∨ is_space c = true) (String.list_ascii_of_string s).

(** The updates of [user_id] in [events] all come from the chat [chat_id],
    and none of them is an edited message. *)
Definition writes_in (chat_id user_id : Z) (events : list (env * chat_update)) :
    Prop :=
  Forall (λ event : env * chat_update,
            from_user event.2 = user_id →
            effective_chat event.2 = chat_id ∧ is_edited (delivery event.2) = false)
    events.

(** Every user writes in the chat [home] names, and no message is edited. *)
Definition one_chat_each (home : Z → Z) (events : list (env * chat_update)) : Prop :=
  Forall (λ event : env * chat_update,
            effective_chat event.2 = home (from_user event.2) ∧
            is_edited (delivery event.2) = false)
    events.

(** The update of the user-keyed bot that a fresh update of a chat is. *)
Definition as_update (u : chat_update) : update :=
  Update (from_user u) (update_kind_of (delivery u)).

(** The two bots hold the same: the conversation of each user in the user's
    chat, and the cache. *)
Definition same_conversations (home : Z → Z) (cb : chat_bot) (b : bot) : Prop :=
  (∀ user_id, chat_state cb (home user_id) user_id = conversation_state b user_id) ∧
  chat_cache cb = cache b.

(** User 1 searches in chat 10. *)
Definition search_in_chat_10 : list (env * chat_update) :=
  [(all_up, ChatUpdate 10 1 (Fresh (Command "start")));
   (all_up, ChatUpdate 10 1 (Fresh (TextMessage "ubuntu")))].

(** User 1 then starts and cancels a conversation in chat 20. *)
Definition cancel_in_chat_20 : list (env * chat_update) :=
  [(all_up, ChatUpdate 20 1 (Fresh (Command "start")));
   (all_up, ChatUpdate 20 1 (Fresh (Command "cancel")))].

(** * Properties *)

(** ** The sort *)

Section Sorting.

Variable key : dict → value.

Lemma value_leb_total a b :
  comparable a b = true → value_leb a b = true ∨ value_leb b a = true.
Proof.
  destruct a, b; simpl; try discriminate; intros _.
  - destruct (Z.leb_spec n n0); [by left|right]. apply Z.leb_le. lia.
  - apply String.leb_total.
Qed.

Lemma value_leb_trans a b c :
  value_leb a b = true → value_leb b c = true → value_leb a c = true.
Proof.
  destruct a, b, c; simpl; try discriminate.
  - rewrite !Z.leb_le. lia.
  - intros H1 H2. apply Is_true_true.
    apply Is_true_true in H1, H2.
    exact (transitivity (R := String.le) H1 H2).
Qed.

Lemma value_leb_refl a b : comparable a b = true → value_leb a a = true.
Proof.
  destruct a, b; simpl; try discriminate; intros _.
  - apply Z.leb_refl.
  - apply Is_true_true. exact (reflexivity (R := String.le) s).
Qed.

Lemma comparable_trans a b c :
  comparable a b = true → comparable a c = true → comparable b c = true.
Proof. destruct a, b, c; simpl; congruence. Qed.

Lemma insert_desc_Permutation x l : insert_desc key x l ≡ₚ x :: l.
Proof.
  induction l as [|y l IH]; simpl; [done|].
  destruct (value_leb (key y) (key x)); [done|].
  rewrite IH. apply Permutation_swap.
Qed.

Lemma sort_desc_Permutation l : sort_desc key l ≡ₚ l.
Proof.
  induction l as [|x l IH]; simpl; [done|].
  rewrite insert_desc_Permutation. by rewrite IH.
Qed.

Lemma insert_desc_sorted x l :
  Forall (λ y, comparable (key x) (key y) = true) l →
  StronglySorted (key_ge key) l →
  StronglySorted (key_ge key) (insert_desc key x l).
Proof.
  intros Hc Hs. induction Hs as [|y l Hs IH Hy]; simpl.
  - repeat constructor.
  - apply Forall_cons in Hc as [Hxy Hc].
    destruct (value_leb (key y) (key x)) eqn:Hle.
    + constructor; [by constructor|].
      constructor; [done|].
      eapply Forall_impl; [exact Hy|].
      intros z Hz. unfold key_ge in *. by eapply value_leb_trans.
    + constructor; [by apply IH|].
      rewrite insert_desc_Permutation. constructor; [|done].
      unfold key_ge. destruct (value_leb_total _ _ Hxy) as [H|H]; [done|].
      congruence.
Qed.

Lemma sort_desc_sorted l :
  (∀ x y, x ∈ l → y ∈ l → comparable (key x) (key y) = true) →
  StronglySorted (key_ge key) (sort_desc key l).
Proof.
  induction l as [|x l IH]; intros Hc; simpl; [constructor|].
  apply insert_desc_sorted.
  - rewrite sort_desc_Permutation. apply Forall_forall.
    intros y Hy. apply Hc; [left|by right].
  - apply IH. intros y z Hy Hz. apply Hc; by right.
Qed.

(** Stability: the elements with a given key keep their order. *)
Lemma insert_desc_filter k x l :
  Forall (λ y, comparable (key x) (key y) = true) l →
  filter (λ d, key d = k) (insert_desc key x l) = filter (λ d, key d = k) (x :: l).
Proof.
  induction l as [|y l IH]; intros Hc; simpl; [done|].
  apply Forall_cons in Hc as [Hxy Hc].
  destruct (value_leb (key y) (key x)) eqn:Hle; [done|].
  assert (key y ≠ key x) as Hne.
  { intros Heq. rewrite Heq in Hle.
    by rewrite (value_leb_refl _ _ Hxy) in Hle. }
  rewrite !filter_cons, (IH Hc), filter_cons.
  repeat case_decide; congruence.
Qed.

Lemma sort_desc_filter k l :
  (∀ x y, x ∈ l → y ∈ l → comparable (key x) (key y) = true) →
  filter (λ d, key d = k) (sort_desc key l) = filter (λ d, key d = k) l.
Proof.
  induction l as [|x l IH]; intros Hc; simpl; [done|].
  rewrite insert_desc_filter.
  - rewrite !filter_cons, IH; [done|].
    intros y z Hy Hz. apply Hc; by right.
  - rewrite sort_desc_Permutation. apply Forall_forall.
    intros y Hy. apply Hc; [left|by right].
Qed.

Lemma sorted_reverse_comparable l s :
  sorted_reverse key l = Ret s →
  s = l ∧ (length l ≤ 1)%nat ∨
  s = sort_desc key l ∧ ∀ x y, x ∈ l → y ∈ l → comparable (key x) (key y) = true.
Proof.
  unfold sorted_reverse.
  destruct l as [|x [|y l]]; [left; simpl; split; [congruence|lia]..|].
  destruct (forallb _ _) eqn:Hall; [|discriminate].
  intros [= <-]. right. split; [done|].
  rewrite forallb_forall in Hall.
  intros a b Ha%list_elem_of_In Hb%list_elem_of_In.
  eapply comparable_trans; eauto.
Qed.

Lemma sorted_reverse_sorted l s :
  sorted_reverse key l = Ret s → StronglySorted (key_ge key) s.
Proof.
  intros [[-> Hl]|[-> Hc]]%sorted_reverse_comparable.
  - destruct l as [|x [|y l]]; simpl in Hl; [repeat constructor..|lia].
  - by apply sort_desc_sorted.
Qed.

Lemma sorted_reverse_filter k l s :
  sorted_reverse key l = Ret s →
  filter (λ d, key d = k) s = filter (λ d, key d = k) l.
Proof.
  intros [[-> Hl]|[-> Hc]]%sorted_reverse_comparable; [done|].
  by apply sort_desc_filter.
Qed.

End Sorting.

(** ** [format_result] *)

Lemma format_result_lookup result :
  format_result result !! "id" = Some (get "Guid" (VStr "") result) ∧
  format_result result !! "title" = Some (get "Title" (VStr "Unknown") result) ∧
  format_result result !! "size" = Some (get "Size" (VInt 0) result) ∧
  format_result result !! "seeds" = Some (get "Seeders" (VInt 0) result) ∧
  format_result result !! "peers" = Some (get "Peers" (VInt 0) result) ∧
  format_result result !! "magnet" = Some (resolve_magnet result) ∧
  format_result result !! "tracker" = Some (get "Tracker" (VStr "Unknown") result).
Proof. unfold format_result. repeat split; by simplify_map_eq. Qed.

Lemma seeds_format_result result : seeds (format_result result) = seeders_key result.
Proof.
  unfold seeds, get at 1.
  by rewrite (proj1 (proj2 (proj2 (proj2 (format_result_lookup result))))).
Qed.

Lemma get_absent k dflt (d : dict) : d !! k = None → get k dflt d = dflt.
Proof. unfold get. by intros ->. Qed.

Lemma get_present k dflt (d : dict) v : d !! k = Some v → get k dflt d = v.
Proof. unfold get. by intros ->. Qed.

(** ** Lists *)

Lemma StronglySorted_take {A} (R : A → A → Prop) n l :
  StronglySorted R l → StronglySorted R (take n l).
Proof.
  intros Hs. revert n. induction Hs as [|x l Hs IH Hx]; intros [|n]; simpl;
    try constructor; [apply IH|].
  apply Forall_forall. intros y Hy%elem_of_take.
  destruct Hy as (i & Hy & _).
  rewrite Forall_forall in Hx. apply Hx. by eapply list_elem_of_lookup_2.
Qed.

Lemma StronglySorted_map {A B} (R : A → A → Prop) (S : B → B → Prop) (f : A → B) l :
  (∀ x y, R x y → S (f x) (f y)) →
  StronglySorted R l → StronglySorted S (map f l).
Proof.
  intros HRS. induction 1 as [|x l Hs IH Hx]; simpl; constructor; [done|].
  apply Forall_map. eapply Forall_impl; [exact Hx|]. intros y. apply HRS.
Qed.

Lemma StronglySorted_lookup_lt {A} (R : A → A → Prop) l i j a b :
  StronglySorted R l → l !! i = Some a → l !! j = Some b → (i < j)%nat → R a b.
Proof.
  intros Hs. revert i j. induction Hs as [|x l Hs IH Hx]; intros i j Hi Hj Hij.
  - by rewrite lookup_nil in Hi.
  - destruct j as [|j]; [lia|]. destruct i as [|i]; simpl in *.
    + injection Hi as <-. rewrite Forall_forall in Hx. apply Hx.
      by eapply list_elem_of_lookup_2.
    + eapply IH; eauto. lia.
Qed.

Lemma filter_take_prefix {A} (P : A → Prop) `{!∀ x, Decision (P x)} n (l : list A) :
  filter P (take n l) `prefix_of` filter P l.
Proof.
  exists (filter P (drop n l)). by rewrite <- filter_app, take_drop.
Qed.

Lemma filter_map_format k l :
  filter (λ t, seeds t = k) (map format_result l)
  = map format_result (filter (λ r, seeders_key r = k) l).
Proof.
  induction l as [|r l IH]; simpl; [done|].
  rewrite !filter_cons, IH, seeds_format_result.
  by case_decide.
Qed.

(** ** Search Provider Adapter *)

Lemma search_jackett_ok results s :
  sorted_reverse seeders_key results = Ret s →
  search_jackett (Response 200 (BodyResults (Some results)))
  = map format_result (take 10 s).
Proof. unfold search_jackett. simpl. by intros ->. Qed.

Lemma search_jackett_cases http :
  search_jackett http = [] ∨
  ∃ results s, http = Response 200 (BodyResults (Some results)) ∧
    sorted_reverse seeders_key results = Ret s ∧
    search_jackett http = map format_result (take 10 s).
Proof.
  destruct http as [|code [|[results|]]]; [by left| | |].
  - left. unfold search_jackett. simpl. by destruct (code =? 200).
  - unfold search_jackett. simpl.
    destruct (Z.eqb_spec code 200) as [->|]; simpl; [|by left].
    destruct (sorted_reverse seeders_key results) as [s|] eqn:Hs; [|by left].
    right. by exists results, s.
  - left. unfold search_jackett. simpl. by destruct (code =? 200).
Qed.

(** C4: the result set of the adapter is sorted by seed count, greatest first
    (for integer seed counts: a candidate further down the list never has more
    seeds), it has at most 10 entries, and the candidates with a given seed
    count are, in the provider's order, the first of the raw results with that
    count. *)
Theorem search_jackett_sorted_stable_capped
    (http : http_outcome) (results : list dict) (k : value) :
  StronglySorted (key_ge seeds) (search_jackett http) ∧
  (∀ i j a b x y,
     search_jackett http !! i = Some a → search_jackett http !! j = Some b →
     (i < j)%nat → seeds a = VInt x → seeds b = VInt y → y ≤ x) ∧
  (length (search_jackett http) ≤ 10)%nat ∧
  filter (λ t, seeds t = k)
    (search_jackett (Response 200 (BodyResults (Some results))))
  `prefix_of` map format_result (filter (λ r, seeders_key r = k) results).
Proof.
  assert (StronglySorted (key_ge seeds) (search_jackett http)) as Hsorted.
  { destruct (search_jackett_cases http) as [->|(rs & s & _ & Hs & ->)];
      [constructor|].
    eapply StronglySorted_map, StronglySorted_take, sorted_reverse_sorted, Hs.
    intros x y. unfold key_ge. by rewrite !seeds_format_result. }
  split; [done|]. split; [|split].
  - intros i j a b x y Ha Hb Hij Hx Hy.
    pose proof (StronglySorted_lookup_lt _ _ _ _ _ _ Hsorted Ha Hb Hij) as Hge.
    unfold key_ge in Hge. rewrite Hx, Hy in Hge. simpl in Hge. lia.
  - destruct (search_jackett_cases http) as [->|(rs & s & _ & _ & ->)];
      [simpl; lia|].
    rewrite length_map, length_take. lia.
  - destruct (search_jackett_cases (Response 200 (BodyResults (Some results))))
      as [->|(rs & s & [= <-] & Hs & ->)]; [apply prefix_nil|].
    rewrite filter_map_format.
    rewrite <- (sorted_reverse_filter seeders_key k _ _ Hs).
    destruct (filter_take_prefix (λ r, seeders_key r = k) 10 s) as [rest ->].
    rewrite map_app. by eexists.
Qed.

Lemma search_jackett_failed http :
  provider_failed http = true → search_jackett http = [].
Proof.
  destruct http as [|code [|r]]; simpl; [done| |].
  - intros _. unfold search_jackett. simpl. by destruct (code =? 200).
  - rewrite orb_false_r. unfold search_jackett. simpl. by intros ->.
Qed.

Lemma check_user_allowed ALLOWED_USERS user_id w :
  user_id ∈ ALLOWED_USERS →
  check_user ALLOWED_USERS user_id w = (Ret true, w).
Proof.
  intros H. unfold check_user, is_user_allowed.
  by rewrite bool_decide_true.
Qed.

(** C7: when the provider call fails, the adapter returns the empty result set
    (the exception stays inside it); the user is told that nothing was found,
    the conversation stays in [SEARCH] and the cache is as it was. *)
Theorem provider_failure_no_results
    (ALLOWED_USERS : list Z) (e : env) (b : bot) (user_id : Z) (query : string) :
  provider_failed (jackett e query) = true →
  user_id ∈ ALLOWED_USERS →
  conversation_state b user_id = SEARCH →
  search_jackett (jackett e query) = [] ∧
  ∃ b',
    handle_update ALLOWED_USERS e b (Update user_id (TextMessage query))
    = (b', [ReplyText (Searching query); JackettGet query; EditText NoResults]) ∧
    conversation_state b' user_id = SEARCH ∧
    cache b' = cache b.
Proof.
  intros Hfail Hallowed Hstate.
  pose proof (search_jackett_failed _ Hfail) as Hempty.
  split; [done|].
  unfold handle_update. simpl. rewrite Hstate. simpl.
  unfold search_torrent. run_M.
  rewrite check_user_allowed by done. simpl.
  rewrite Hempty. simpl.
  eexists. split; [reflexivity|]. split; [|done].
  unfold conversation_state. simpl. by rewrite lookup_insert_eq.
Qed.

Lemma resolve_magnet_preferred result m :
  result !! "MagnetUri" = Some m → truthy m = true → resolve_magnet result = m.
Proof.
  intros Hm Ht. unfold resolve_magnet.
  by rewrite (get_present _ _ _ _ Hm), Ht.
Qed.

Lemma resolve_magnet_fallback result l :
  truthy (get "MagnetUri" (VStr "") result) = false →
  result !! "Link" = Some l → resolve_magnet result = l.
Proof.
  intros Hm Hl. unfold resolve_magnet, has_key.
  rewrite Hm, bool_decide_true by (by rewrite Hl). simpl.
  by apply get_present.
Qed.

Lemma resolve_magnet_neither result :
  result !! "MagnetUri" = None → result !! "Link" = None →
  resolve_magnet result = VStr "".
Proof.
  intros Hm Hl. unfold resolve_magnet, has_key.
  rewrite (get_absent _ _ _ Hm), bool_decide_false; [done|].
  rewrite Hl. by intros [? ?].
Qed.

(** C8: for a raw result, the magnet field is taken when it holds something;
    when it is absent or empty (or null) the link field is taken if there is
    one; with neither field the locator is the empty string, and the result is
    kept all the same (every one of the first 10 sorted results yields a
    candidate).  A missing title or tracker becomes "Unknown", a missing size,
    seed or peer count becomes 0, and a field that is there is copied. *)
Theorem format_result_locator_and_defaults (result : dict) :
  let t := format_result result in
  (∀ m, result !! "MagnetUri" = Some m → truthy m = true →
        t !! "magnet" = Some m) ∧
  (∀ l, result !! "MagnetUri" = None ∨ result !! "MagnetUri" = Some (VStr "")
        ∨ result !! "MagnetUri" = Some VNone →
        result !! "Link" = Some l → t !! "magnet" = Some l) ∧
  (result !! "MagnetUri" = None → result !! "Link" = None →
   t !! "magnet" = Some (VStr "")) ∧
  (result !! "Title" = None → t !! "title" = Some (VStr "Unknown")) ∧
  (result !! "Size" = None → t !! "size" = Some (VInt 0)) ∧
  (result !! "Seeders" = None → t !! "seeds" = Some (VInt 0)) ∧
  (result !! "Peers" = None → t !! "peers" = Some (VInt 0)) ∧
  (result !! "Tracker" = None → t !! "tracker" = Some (VStr "Unknown")) ∧
  (∀ v, result !! "Title" = Some v → t !! "title" = Some v) ∧
  (∀ v, result !! "Size" = Some v → t !! "size" = Some v) ∧
  (∀ v, result !! "Seeders" = Some v → t !! "seeds" = Some v) ∧
  (∀ v, result !! "Peers" = Some v → t !! "peers" = Some v) ∧
  (∀ v, result !! "Tracker" = Some v → t !! "tracker" = Some v) ∧
  (∀ results s, sorted_reverse seeders_key results = Ret s →
     search_jackett (Response 200 (BodyResults (Some results)))
     = map format_result (take 10 s)).
Proof.
  destruct (format_result_lookup result)
    as (_ & Htitle & Hsize & Hseeds & Hpeers & Hmagnet & Htracker).
  cbv zeta.
  rewrite Htitle, Hsize, Hseeds, Hpeers, Hmagnet, Htracker.
  repeat split.
  - intros m Hm Ht. f_equal. by apply resolve_magnet_preferred.
  - intros l Hm Hl. f_equal. apply resolve_magnet_fallback; [|done].
    unfold get. by destruct Hm as [->|[->| ->]].
  - intros Hm Hl. f_equal. by apply resolve_magnet_neither.
  - intros H. f_equal. by apply get_absent.
  - intros H. f_equal. by apply get_absent.
  - intros H. f_equal. by apply get_absent.
  - intros H. f_equal. by apply get_absent.
  - intros H. f_equal. by apply get_absent.
  - intros v H. f_equal. by apply get_present.
  - intros v H. f_equal. by apply get_present.
  - intros v H. f_equal. by apply get_present.
  - intros v H. f_equal. by apply get_present.
  - intros v H. f_equal. by apply get_present.
  - apply search_jackett_ok.
Qed.

Lemma format_result_locator_and_defaults_witness :
  format_result link_only !! "magnet" = Some (VStr "http://tracker/t.torrent") ∧
  format_result link_only !! "title" = Some (VStr "Unknown") ∧
  format_result link_only !! "size" = Some (VInt 0) ∧
  format_result link_only !! "seeds" = Some (VInt 7) ∧
  format_result link_only !! "peers" = Some (VInt 0) ∧
  format_result link_only !! "tracker" = Some (VStr "Unknown").
Proof.
  pose proof (format_result_locator_and_defaults link_only)
    as (_ & Hlink & _ & Htitle & Hsize & _ & Hpeers & Htracker & _ & _ & Hseeds & _).
  split; [apply Hlink; [left|]; reflexivity|].
  split; [apply Htitle; reflexivity|].
  split; [apply Hsize; reflexivity|].
  split; [apply Hseeds; reflexivity|].
  split; [apply Hpeers; reflexivity|].
  apply Htracker; reflexivity.
Defined.

(** ** The selection handler *)

Lemma substring_length_le m s : (String.length (String.substring 0 m s) ≤ m)%nat.
Proof.
  revert s. induction m as [|m IH]; intros [|c s]; simpl; try lia.
  specialize (IH s). lia.
Qed.

Lemma str200_length ex : (String.length (str200 ex) ≤ 200)%nat.
Proof. apply substring_length_le. Qed.

Lemma conversation_state_update b c user_id s :
  conversation_state (Bot (update_state user_id s (conversations b)) c) user_id = s.
Proof.
  unfold conversation_state, update_state. simpl.
  destruct s; by rewrite ?lookup_insert_eq, ?lookup_delete_eq.
Qed.

Lemma conversation_state_update_ne b c user_id other s :
  user_id ≠ other →
  conversation_state (Bot (update_state user_id s (conversations b)) c) other
  = conversation_state b other.
Proof.
  intros Hne. unfold conversation_state, update_state. simpl.
  destruct s; by rewrite ?lookup_insert_ne, ?lookup_delete_ne.
Qed.

(** C10: a payload that is neither "cancel" nor an integer literal (and no
    longer than the digits [int] converts) does not make the selection
    callback fail: the [ValueError] of [int], whose text ends with the [repr]
    of the payload, is caught, the user is sent the generic error text with
    at most 200 characters of detail, the callback returns [SEARCH] and the
    cache is as it was. *)
Theorem select_torrent_bad_payload
    (ALLOWED_USERS : list Z) (e : env) (b : bot) (user_id : Z) (data : string)
    (glyph_text : glyph → string) (fmt_2f : Z → Z → string) (fmt_1f : Q → string) :
  conversation_state b user_id = SELECT_TORRENT →
  data ≠ "cancel" →
  (String.length data ≤ int_max_str_digits)%nat →
  parse_int (String.list_ascii_of_string data) = None →
  let detail := str200 (invalid_literal data) in
  select_torrent e user_id data (World (cache b) [])
  = (Ret SEARCH, World (cache b) [AnswerQuery; EditText (SelectionFailed detail)]) ∧
  (∃ b',
     handle_update ALLOWED_USERS e b (Update user_id (CallbackQuery data))
     = (b', [AnswerQuery; EditText (SelectionFailed detail)]) ∧
     conversation_state b' user_id = SEARCH ∧
     cache b' = cache b) ∧
  (String.length detail ≤ 200)%nat ∧
  reply_text glyph_text fmt_2f fmt_1f (SelectionFailed detail)
  = glyph_text g_cross
    +:+ " An error occurred while processing your selection: "
    +:+ detail +:+ "... Please try again.".
Proof.
  intros Hstate Hdata _ Hparse detail.
  assert (select_torrent e user_id data (World (cache b) [])
    = (Ret SEARCH,
       World (cache b) [AnswerQuery; EditText (SelectionFailed detail)])) as Hsel.
  { unfold select_torrent. run_M.
    apply String.eqb_neq in Hdata. rewrite Hdata.
    unfold py_int. by rewrite Hparse. }
  split; [done|]. split; [|split; [apply str200_length|done]].
  unfold handle_update. simpl. rewrite Hstate. simpl. rewrite Hsel. simpl.
  eexists. split; [reflexivity|]. split; [|done].
  exact (conversation_state_update b _ user_id SEARCH).
Qed.

(** ** What a callback can do to the cache *)

(** The selection callback returns [SEARCH], never raises, and either leaves
    the cache alone or removes the user's entry. *)
Lemma select_torrent_cases e user_id data c :
  ∃ tr,
    select_torrent e user_id data (World c []) = (Ret SEARCH, World c tr) ∨
    select_torrent e user_id data (World c [])
    = (Ret SEARCH, World (delete user_id c) tr).
Proof.
  unfold select_torrent. run_M.
  split_cases; eauto.
Qed.

Lemma refused ALLOWED_USERS user_id :
  user_id ∉ ALLOWED_USERS → is_user_allowed ALLOWED_USERS user_id = false.
Proof. intros H. unfold is_user_allowed. by rewrite bool_decide_false. Qed.

(** A callback that checks the user does nothing else for a user who is not
    allowed. *)
Lemma run_callback_refused ALLOWED_USERS e user_id h c :
  user_id ∉ ALLOWED_USERS → checks_user h = true →
  run_callback ALLOWED_USERS e user_id h (World c [])
  = (Ret END, World c [ReplyText NotAuthorized]).
Proof.
  intros Hno Hh. destruct h; try discriminate; simpl;
    unfold start, search_torrent, status, check_user;
    by rewrite (refused _ _ Hno).
Qed.

(** Every callback returns a state (no exception leaves it), touches the cache
    only at the key of the user it runs for, and returns [SELECT_TORRENT] only
    with an entry stored for that user. *)
Lemma run_callback_summary ALLOWED_USERS e user_id h c :
  ∃ s c' tr,
    run_callback ALLOWED_USERS e user_id h (World c []) = (Ret s, World c' tr) ∧
    cache_change user_id c c' ∧
    (s = SELECT_TORRENT → is_Some (c' !! user_id)) ∧
    (s = END → c' !! user_id = None ∨ c' = c ∧ checks_user h = true
                                      ∧ user_id ∉ ALLOWED_USERS).
Proof.
  destruct h as [|query|data| |]; simpl.
  - unfold start, check_user, is_user_allowed. run_M.
    case_bool_decide; simpl; eexists _, _, _;
      (split; [reflexivity|]); (split; [constructor|]); split; try done.
    intros _. by right.
  - unfold search_torrent, check_user, is_user_allowed. run_M.
    case_bool_decide; simpl.
    + split_cases; eexists _, _, _; (split; [reflexivity|]);
        (split; [constructor|]); split; try done.
      intros _. by rewrite lookup_insert_eq.
    + eexists _, _, _; (split; [reflexivity|]); (split; [constructor|]).
      split; [done|]. intros _. by right.
  - destruct (select_torrent_cases e user_id data c) as [tr [-> | ->]];
      eexists _, _, _; (split; [reflexivity|]); (split; [constructor|]); done.
  - unfold status, check_user, is_user_allowed. run_M.
    case_bool_decide; simpl.
    + split_cases; eexists _, _, _; (split; [reflexivity|]);
        (split; [constructor|]); done.
    + eexists _, _, _; (split; [reflexivity|]); (split; [constructor|]).
      split; [done|]. intros _. by right.
  - unfold cancel. run_M. eexists _, _, _; (split; [reflexivity|]).
    split; [constructor|]. split; [done|]. intros _. left.
    apply lookup_delete_eq.
Qed.

Lemma cache_change_other user_id c c' other :
  cache_change user_id c c' → other ≠ user_id → c' !! other = c !! other.
Proof.
  intros [] Hne; by rewrite ?lookup_insert_ne, ?lookup_delete_ne.
Qed.

(** ** One update *)

(** Handling an update of one user leaves every other user's conversation
    and cache entry as they were. *)
Lemma handle_update_other ALLOWED_USERS e b u other :
  other ≠ effective_user u →
  let b' := (handle_update ALLOWED_USERS e b u).1 in
  conversation_state b' other = conversation_state b other ∧
  cache b' !! other = cache b !! other.
Proof.
  intros Hne. unfold handle_update.
  destruct (check_update _ _) as [h|]; [|done].
  destruct (run_callback_summary ALLOWED_USERS e (effective_user u) h (cache b))
    as (s & c' & tr & -> & Hc & _). simpl. split.
  - by apply conversation_state_update_ne.
  - by eapply cache_change_other.
Qed.

Lemma handle_update_awaiting ALLOWED_USERS e b u :
  awaiting_has_entry b →
  awaiting_has_entry (handle_update ALLOWED_USERS e b u).1.
Proof.
  intros Hinv user_id.
  destruct (decide (user_id = effective_user u)) as [->|Hne].
  - unfold handle_update.
    destruct (check_update _ _) as [h|]; [|apply Hinv].
    destruct (run_callback_summary ALLOWED_USERS e (effective_user u) h (cache b))
      as (s & c' & tr & -> & _ & Hs & _). simpl.
    by rewrite (conversation_state_update b c' (effective_user u) s).
  - destruct (handle_update_other ALLOWED_USERS e b u user_id Hne) as [-> ->].
    apply Hinv.
Qed.

Lemma run_awaiting ALLOWED_USERS events b :
  awaiting_has_entry b → awaiting_has_entry (run ALLOWED_USERS b events).
Proof.
  revert b. induction events as [|[e u] events IH]; intros b Hb; simpl; [done|].
  by apply IH, handle_update_awaiting.
Qed.

Lemma conversation_state_lookup b user_id s :
  s ≠ END → conversation_state b user_id = s → conversations b !! user_id = Some s.
Proof.
  unfold conversation_state. destruct (conversations b !! user_id); simpl; congruence.
Qed.

Lemma bot_eta b : Bot (conversations b) (cache b) = b.
Proof. by destruct b. Qed.

(** ** Cancelling *)

Lemma check_update_cancel s :
  s ≠ END → check_update s (Command "cancel") = Some h_cancel.
Proof. by destruct s. Qed.

(** C5, as the code has it: inside a conversation (in [SEARCH] or in
    [SELECT_TORRENT]) the cancel command removes the user's cache entry, sends
    the cancellation message and ends the conversation ([END]); outside a
    conversation it is not handled.  The cancel button, while a selection is
    awaited, sends its cancellation message and returns to [SEARCH]. *)
Theorem cancel_command_and_button
    (ALLOWED_USERS : list Z) (e : env) (b : bot) (user_id : Z) :
  (conversation_state b user_id ≠ END →
   ∃ b',
     handle_update ALLOWED_USERS e b (Update user_id (Command "cancel"))
     = (b', [ReplyText OperationCancelled]) ∧
     cache b' = delete user_id (cache b) ∧
     cache b' !! user_id = None ∧
     conversation_state b' user_id = END) ∧
  (conversation_state b user_id = END →
   handle_update ALLOWED_USERS e b (Update user_id (Command "cancel")) = (b, [])) ∧
  (conversation_state b user_id = SELECT_TORRENT →
   ∃ b',
     handle_update ALLOWED_USERS e b (Update user_id (CallbackQuery "cancel"))
     = (b', [AnswerQuery; EditText SearchCancelled]) ∧
     conversation_state b' user_id = SEARCH).
Proof.
  split; [|split].
  - intros Hs. unfold handle_update. simpl.
    rewrite check_update_cancel by done. simpl.
    eexists. split; [reflexivity|]. simpl.
    split; [done|]. split; [apply lookup_delete_eq|].
    exact (conversation_state_update b _ user_id END).
  - intros Hs. unfold handle_update. simpl. by rewrite Hs.
  - intros Hs. unfold handle_update. simpl. rewrite Hs. simpl.
    eexists. split; [reflexivity|].
    exact (conversation_state_update b _ user_id SEARCH).
Qed.

Lemma cancel_command_and_button_witness :
  (∃ b',
     handle_update [1] all_up awaiting (Update 1 (Command "cancel"))
     = (b', [ReplyText OperationCancelled]) ∧
     cache b' = delete 1 (cache awaiting) ∧
     cache b' !! 1 = None ∧
     conversation_state b' 1 = END) ∧
  handle_update [1] all_up initial (Update 1 (Command "cancel")) = (initial, []) ∧
  (∃ b',
     handle_update [1] all_up awaiting (Update 1 (CallbackQuery "cancel"))
     = (b', [AnswerQuery; EditText SearchCancelled]) ∧
     conversation_state b' 1 = SEARCH).
Proof.
  split; [|split].
  - apply (cancel_command_and_button [1] all_up awaiting 1).
    vm_compute. discriminate.
  - apply (cancel_command_and_button [1] all_up initial 1). reflexivity.
  - apply (cancel_command_and_button [1] all_up awaiting 1).
    vm_compute. reflexivity.
Defined.

(** C5 as stated fails for the cancel command: a user who has no conversation
    (the initial state) gets no cancellation message, and after a cancel
    command inside a conversation the conversation is over, so that the next
    query is not taken. *)
Lemma cancel_command_outside_conversation :
  conversation_state initial 1 = END ∧
  handle_update [1] all_up initial (Update 1 (Command "cancel")) = (initial, []) ∧
  let b' := (handle_update [1] all_up searching (Update 1 (Command "cancel"))).1 in
  conversation_state searching 1 = SEARCH ∧
  conversation_state b' 1 = END ∧
  handle_update [1] all_up b' (Update 1 (TextMessage "ubuntu")) = (b', []).
Proof. repeat split. Qed.

(** ** Users who are not allowed *)

Lemma handle_update_other_conversation ALLOWED_USERS e b u other :
  other ≠ effective_user u →
  conversations (handle_update ALLOWED_USERS e b u).1 !! other
  = conversations b !! other.
Proof.
  intros Hne. unfold handle_update.
  destruct (check_update _ _) as [h|]; [|done].
  destruct (run_callback_summary ALLOWED_USERS e (effective_user u) h (cache b))
    as (s & c' & tr & -> & _). simpl.
  unfold update_state. destruct s; by rewrite ?lookup_insert_ne, ?lookup_delete_ne.
Qed.

Lemma unknown_conversation_state b user_id :
  unknown_to b user_id → conversation_state b user_id = END.
Proof. intros [H _]. unfold conversation_state. by rewrite H. Qed.

(** What the bot does with an update of a user it does not know and who is
    not allowed: it refuses [/start] and ignores everything else. *)
Lemma handle_update_refused ALLOWED_USERS e b user_id c :
  user_id ∉ ALLOWED_USERS → unknown_to b user_id →
  handle_update ALLOWED_USERS e b (Update user_id c)
  = (b, if bool_decide (c = Command "start") then [ReplyText NotAuthorized] else []).
Proof.
  intros Hno Hunknown. unfold handle_update. simpl.
  rewrite (unknown_conversation_state _ _ Hunknown). simpl.
  destruct c as [cmd| |]; simpl; [|done..].
  destruct (String.eqb_spec cmd "start") as [->|Hcmd].
  - rewrite bool_decide_true by done. simpl.
    unfold start, check_user. rewrite (refused _ _ Hno). simpl.
    destruct Hunknown as [Hconv _].
    by rewrite (delete_id _ _ Hconv), bot_eta.
  - rewrite bool_decide_false; [done|]. by intros [= ->].
Qed.

Lemma handle_update_unknown ALLOWED_USERS e b u user_id :
  user_id ∉ ALLOWED_USERS → unknown_to b user_id →
  unknown_to (handle_update ALLOWED_USERS e b u).1 user_id.
Proof.
  intros Hno Hunknown.
  destruct (decide (user_id = effective_user u)) as [->|Hne].
  - destruct u as [user_id c]. simpl in *.
    by rewrite (handle_update_refused _ _ _ _ _ Hno Hunknown).
  - destruct Hunknown as [Hconv Hcache]. split.
    + by rewrite handle_update_other_conversation.
    + by rewrite (proj2 (handle_update_other ALLOWED_USERS e b u user_id Hne)).
Qed.

Lemma run_unknown ALLOWED_USERS events b user_id :
  user_id ∉ ALLOWED_USERS → unknown_to b user_id →
  unknown_to (run ALLOWED_USERS b events) user_id.
Proof.
  intros Hno. revert b. induction events as [|[e u] events IH]; intros b Hb; simpl;
    [done|].
  by apply IH, handle_update_unknown.
Qed.

(** C6, as the code has it: a user who is not on the allow-list never gets a
    conversation or a cache entry, whatever updates the bot has handled.  The
    start command is answered with the refusal; every other update of such a
    user (text, button, /status, /cancel) matches no handler and is ignored;
    either way the bot is left as it was.  The callbacks that check the user
    ([start], [search_torrent], [status]) refuse before doing anything else. *)
Theorem not_allowed_user_is_refused_or_ignored
    (ALLOWED_USERS : list Z) (events : list (env * update)) (user_id : Z) :
  user_id ∉ ALLOWED_USERS →
  let b := run ALLOWED_USERS initial events in
  unknown_to b user_id ∧
  (∀ e, handle_update ALLOWED_USERS e b (Update user_id (Command "start"))
        = (b, [ReplyText NotAuthorized])) ∧
  (∀ e c, c ≠ Command "start" →
          handle_update ALLOWED_USERS e b (Update user_id c) = (b, [])) ∧
  (∀ e h c, checks_user h = true →
            run_callback ALLOWED_USERS e user_id h (World c [])
            = (Ret END, World c [ReplyText NotAuthorized])).
Proof.
  intros Hno b.
  assert (unknown_to b user_id) as Hunknown.
  { apply run_unknown; [done|]. by split. }
  split; [done|]. split; [|split].
  - intros e. by rewrite (handle_update_refused _ _ _ _ _ Hno Hunknown).
  - intros e c Hc. rewrite (handle_update_refused _ _ _ _ _ Hno Hunknown).
    by rewrite bool_decide_false.
  - intros e h c Hh. by apply run_callback_refused.
Qed.

Lemma two_not_allowed : (2 : Z) ∉ [1].
Proof. intros H%list_elem_of_In. simpl in H. by destruct H. Defined.

Lemma not_allowed_user_is_refused_or_ignored_witness :
  let b := run [1] initial
             [(all_up, Update 1 (Command "start"));
              (all_up, Update 2 (Command "start"));
              (all_up, Update 2 (TextMessage "ubuntu"));
              (all_up, Update 1 (TextMessage "ubuntu"))] in
  unknown_to b 2 ∧
  (∀ e, handle_update [1] e b (Update 2 (Command "start"))
        = (b, [ReplyText NotAuthorized])) ∧
  (∀ e c, c ≠ Command "start" → handle_update [1] e b (Update 2 c) = (b, [])) ∧
  (∀ e h c, checks_user h = true →
            run_callback [1] e 2 h (World c [])
            = (Ret END, World c [ReplyText NotAuthorized])).
Proof.
  exact (not_allowed_user_is_refused_or_ignored [1] _ 2 two_not_allowed).
Defined.

(** C6 as stated fails: a user who is not allowed and sends a query, presses
    a button or sends /status or /cancel gets no answer at all, and the two
    callbacks without a check, run for such a user, do not refuse. *)
Lemma not_allowed_user_gets_no_refusal :
  is_user_allowed [1] 2 = false ∧
  handle_update [1] all_up awaiting (Update 2 (TextMessage "ubuntu")) = (awaiting, []) ∧
  handle_update [1] all_up awaiting (Update 2 (CallbackQuery "0")) = (awaiting, []) ∧
  handle_update [1] all_up awaiting (Update 2 (Command "status")) = (awaiting, []) ∧
  handle_update [1] all_up awaiting (Update 2 (Command "cancel")) = (awaiting, []) ∧
  select_torrent all_up 2 "cancel" (World ∅ [])
  = (Ret SEARCH, World ∅ [AnswerQuery; EditText SearchCancelled]) ∧
  (cancel 2 (World {[2 := []]} [])).2 = World ∅ [ReplyText OperationCancelled].
Proof. repeat split. Qed.

(** ** The status command *)

Lemma check_update_status s :
  check_update s (Command "status") = if decide (s = SEARCH) then Some h_status else None.
Proof. by destruct s. Qed.

Lemma enumerate_length {A} i (l : list A) : length (enumerate i l) = length l.
Proof. revert i. induction l as [|x l IH]; intros i; simpl; [done|]. by rewrite IH. Qed.

Lemma enumerate_lookup {A} i (l : list A) k x :
  l !! k = Some x → enumerate i l !! k = Some ((i + k)%nat, x).
Proof.
  revert i k. induction l as [|y l IH]; intros i [|k] H; simpl in *; try done.
  - injection H as ->. by rewrite Nat.add_0_r.
  - rewrite (IH (S i) k H). do 2 f_equal. lia.
Qed.

(** The status callback for an allowed user: it returns [SEARCH] and leaves
    the cache alone, whatever Transmission answers. *)
Lemma status_allowed ALLOWED_USERS e user_id c :
  user_id ∈ ALLOWED_USERS →
  ∃ tr, status ALLOWED_USERS e user_id (World c []) = (Ret SEARCH, World c tr).
Proof.
  intros Hin. unfold status. run_M.
  rewrite check_user_allowed by done. simpl.
  split_cases; eauto.
Qed.

Lemma status_listing ALLOWED_USERS e user_id c torrents :
  user_id ∈ ALLOWED_USERS → connect e = None →
  get_torrents e = Ret torrents → torrents ≠ [] →
  status ALLOWED_USERS e user_id (World c [])
  = (Ret SEARCH,
     World c [TransmissionClient; GetTorrents;
              ReplyText (StatusMessage (enumerate 1 (take 10 torrents))
                (if (10 <? length torrents)%nat
                 then Some (length torrents - 10)%nat else None))]).
Proof.
  intros Hin Hconnect Htorrents Hne. unfold status. run_M.
  rewrite check_user_allowed by done. simpl.
  rewrite Hconnect, Htorrents. simpl.
  by destruct torrents.
Qed.

(** C9, as the code has it: the status command is handled in [SEARCH] only;
    while a selection is awaited, and outside a conversation, it is ignored.
    In [SEARCH], for an allowed user, it leaves the bot as it was; when
    Transmission lists its jobs and there are some, the reply shows the first
    10 of them, numbered from 1, and, when there are more than 10, ends with
    the count of the others. *)
Theorem status_command_in_search
    (ALLOWED_USERS : list Z) (e : env) (b : bot) (user_id : Z)
    (glyph_text : glyph → string) (fmt_2f : Z → Z → string) (fmt_1f : Q → string) :
  (conversation_state b user_id ≠ SEARCH →
   handle_update ALLOWED_USERS e b (Update user_id (Command "status")) = (b, [])) ∧
  (conversation_state b user_id = SEARCH → user_id ∈ ALLOWED_USERS →
   (handle_update ALLOWED_USERS e b (Update user_id (Command "status"))).1 = b) ∧
  (∀ torrents,
     conversation_state b user_id = SEARCH → user_id ∈ ALLOWED_USERS →
     connect e = None → get_torrents e = Ret torrents → torrents ≠ [] →
     ∃ shown more,
       (handle_update ALLOWED_USERS e b (Update user_id (Command "status"))).2
       = [TransmissionClient; GetTorrents; ReplyText (StatusMessage shown more)] ∧
       shown = enumerate 1 (take 10 torrents) ∧
       (length shown ≤ 10)%nat ∧
       (∀ k t, (k < 10)%nat → torrents !! k = Some t → shown !! k = Some (S k, t)) ∧
       ((length torrents ≤ 10)%nat → more = None) ∧
       ((10 < length torrents)%nat → more = Some (length torrents - 10)%nat) ∧
       reply_text glyph_text fmt_2f fmt_1f (StatusMessage shown more)
       = glyph_text g_inbox +:+ " Current Transmission Torrents:"
         +:+ newline +:+ newline
         +:+ foldr (λ entry rest, job_text glyph_text fmt_2f fmt_1f entry +:+ rest)
               (match more with
                | Some n => "...and " +:+ pretty n +:+ " more torrents."
                | None => ""
                end) shown).
Proof.
  split; [|split].
  - intros Hs. unfold handle_update. simpl.
    rewrite check_update_status. by rewrite decide_False.
  - intros Hs Hin. unfold handle_update. simpl.
    rewrite check_update_status, decide_True by done. simpl.
    destruct (status_allowed ALLOWED_USERS e user_id (cache b) Hin) as [tr ->].
    simpl. rewrite insert_id; [apply bot_eta|].
    by apply conversation_state_lookup.
  - intros torrents Hs Hin Hconnect Htorrents Hne.
    unfold handle_update. simpl.
    rewrite check_update_status, decide_True by done. simpl.
    rewrite (status_listing _ _ _ _ _ Hin Hconnect Htorrents Hne). simpl.
    eexists _, _. split; [reflexivity|]. split; [done|].
    split; [|split; [|split; [|split]]].
    + rewrite enumerate_length, length_take. lia.
    + intros k t Hk Ht. rewrite (enumerate_lookup 1 _ k t); [done|].
      by rewrite lookup_take_lt.
    + intros Hle. by rewrite (proj2 (Nat.ltb_ge _ _) Hle).
    + intros Hlt. by rewrite (proj2 (Nat.ltb_lt _ _) Hlt).
    + done.
Qed.

Lemma one_allowed : (1 : Z) ∈ [1].
Proof. left. Defined.

Lemma status_command_in_search_witness :
  handle_update [1] all_up initial (Update 1 (Command "status")) = (initial, []) ∧
  (handle_update [1] all_up searching (Update 1 (Command "status"))).1 = searching ∧
  ∃ shown more,
    (handle_update [1] all_up searching (Update 1 (Command "status"))).2
    = [TransmissionClient; GetTorrents; ReplyText (StatusMessage shown more)] ∧
    shown = enumerate 1 (take 10 (jobs 12)) ∧
    (length shown ≤ 10)%nat ∧
    (∀ k t, (k < 10)%nat → jobs 12 !! k = Some t → shown !! k = Some (S k, t)) ∧
    ((length (jobs 12) ≤ 10)%nat → more = None) ∧
    ((10 < length (jobs 12))%nat → more = Some (length (jobs 12) - 10)%nat) ∧
    reply_text (λ _, "*") (λ _ _, "0.00") (λ _, "0.0") (StatusMessage shown more)
    = "*" +:+ " Current Transmission Torrents:"
      +:+ newline +:+ newline
      +:+ foldr (λ entry rest,
                   job_text (λ _, "*") (λ _ _, "0.00") (λ _, "0.0") entry +:+ rest)
            (match more with
             | Some n => "...and " +:+ pretty n +:+ " more torrents."
             | None => ""
             end) shown.
Proof.
  pose proof (status_command_in_search [1] all_up initial 1
                (λ _, "*") (λ _ _, "0.00") (λ _, "0.0")) as (Hout & _ & _).
  pose proof (status_command_in_search [1] all_up searching 1
                (λ _, "*") (λ _ _, "0.00") (λ _, "0.0")) as (_ & Hsame & Hlist).
  split; [|split].
  - apply Hout. vm_compute. discriminate.
  - apply Hsame; [reflexivity|exact one_allowed].
  - apply (Hlist (jobs 12)); [reflexivity|exact one_allowed|reflexivity..|].
    vm_compute. discriminate.
Defined.

(** C9 as stated fails: while a selection is awaited the status command
    matches no handler, so nothing is read and nothing is sent. *)
Lemma status_command_ignored_while_awaiting :
  conversation_state awaiting 1 = SELECT_TORRENT ∧
  handle_update [1] all_up awaiting (Update 1 (Command "status")) = (awaiting, []).
Proof. repeat split. Qed.

(** The caveat of the example: 12 jobs, 10 shown, "2 more". *)
Example status_twelve_jobs :
  ∃ shown,
    (handle_update [1] all_up searching (Update 1 (Command "status"))).2
    = [TransmissionClient; GetTorrents; ReplyText (StatusMessage shown (Some 2%nat))] ∧
    length shown = 10%nat ∧
    more_text (Some 2%nat) = "...and 2 more torrents.".
Proof. eexists. repeat split. Qed.

(** ** Scenario D: the provider times out *)

Lemma provider_failure_no_results_witness :
  search_jackett (jackett provider_down "ubuntu") = [] ∧
  ∃ b',
    handle_update [1] provider_down searching (Update 1 (TextMessage "ubuntu"))
    = (b', [ReplyText (Searching "ubuntu"); JackettGet "ubuntu"; EditText NoResults]) ∧
    conversation_state b' 1 = SEARCH ∧
    cache b' = cache searching.
Proof.
  apply (provider_failure_no_results [1] provider_down searching 1 "ubuntu");
    [reflexivity|exact one_allowed|reflexivity].
Defined.

Lemma select_torrent_bad_payload_witness :
  let detail := str200 (invalid_literal "first") in
  select_torrent all_up 1 "first" (World (cache awaiting) [])
  = (Ret SEARCH,
     World (cache awaiting) [AnswerQuery; EditText (SelectionFailed detail)]) ∧
  (∃ b',
     handle_update [1] all_up awaiting (Update 1 (CallbackQuery "first"))
     = (b', [AnswerQuery; EditText (SelectionFailed detail)]) ∧
     conversation_state b' 1 = SEARCH ∧
     cache b' = cache awaiting) ∧
  (String.length detail ≤ 200)%nat ∧
  reply_text (λ _, "*") (λ _ _, "0.00") (λ _, "0.0") (SelectionFailed detail)
  = "*" +:+ " An error occurred while processing your selection: "
    +:+ detail +:+ "... Please try again.".
Proof.
  apply (select_torrent_bad_payload [1] all_up awaiting 1 "first"
           (λ _, "*") (λ _ _, "0.00") (λ _, "0.0"));
    [reflexivity|discriminate|vm_compute; lia|reflexivity].
Defined.

(** ** Selecting *)

(** A selection that reaches Transmission and is accepted: the user's entry is
    removed. *)
Lemma select_torrent_added e user_id data c i results torrent size_str :
  data ≠ "cancel" → py_int data = Ret i →
  c !! user_id = Some results → 0 ≤ i < Z.of_nat (length results) →
  results !! Z.to_nat i = Some torrent →
  truthy (get "magnet" (VStr "") torrent) = true →
  connect e = None → add_torrent e (get "magnet" (VStr "") torrent) = None →
  format_size (get "size" (VInt 0) torrent) = Ret size_str →
  select_torrent e user_id data (World c [])
  = (Ret SEARCH,
     World (delete user_id c)
       [AnswerQuery; EditText (Adding (get "title" (VStr "Unknown") torrent));
        TransmissionClient; AddTorrent (get "magnet" (VStr "") torrent);
        EditText (Added (get "title" (VStr "Unknown") torrent) size_str
                    (get "tracker" (VStr "Unknown") torrent) (now e))]).
Proof.
  intros Hdata Hint Hc Hi Ht Hmagnet Hconnect Hadd Hsize.
  unfold select_torrent. run_M.
  apply String.eqb_neq in Hdata. rewrite Hdata, Hint. simpl. rewrite Hc. simpl.
  destruct results as [|r results]; [simpl in Hi; lia|].
  rewrite (proj2 (Z.leb_gt _ _)) by lia.
  unfold list_index.
  rewrite (proj2 (Z.ltb_ge i 0)) by lia.
  rewrite (proj2 (Z.leb_le 0 i)), (proj2 (Z.ltb_lt _ _)) by lia.
  rewrite Ht. simpl. rewrite Hmagnet. simpl.
  rewrite Hconnect. simpl. rewrite Hadd. simpl.
  by rewrite Hsize.
Qed.

(** The same selection when Transmission refuses the torrent: the entry
    stays. *)
Lemma select_torrent_refused e user_id data c i results torrent ex :
  data ≠ "cancel" → py_int data = Ret i →
  c !! user_id = Some results → 0 ≤ i < Z.of_nat (length results) →
  results !! Z.to_nat i = Some torrent →
  truthy (get "magnet" (VStr "") torrent) = true →
  connect e = None → add_torrent e (get "magnet" (VStr "") torrent) = Some ex →
  kind ex = TransmissionError →
  select_torrent e user_id data (World c [])
  = (Ret SEARCH,
     World c
       [AnswerQuery; EditText (Adding (get "title" (VStr "Unknown") torrent));
        TransmissionClient; AddTorrent (get "magnet" (VStr "") torrent);
        EditText (AddFailed (str200 ex))]).
Proof.
  intros Hdata Hint Hc Hi Ht Hmagnet Hconnect Hadd Hkind.
  unfold select_torrent. run_M.
  apply String.eqb_neq in Hdata. rewrite Hdata, Hint. simpl. rewrite Hc. simpl.
  destruct results as [|r results]; [simpl in Hi; lia|].
  rewrite (proj2 (Z.leb_gt _ _)) by lia.
  unfold list_index.
  rewrite (proj2 (Z.ltb_ge i 0)) by lia.
  rewrite (proj2 (Z.leb_le 0 i)), (proj2 (Z.ltb_lt _ _)) by lia.
  rewrite Ht. simpl. rewrite Hmagnet. simpl.
  rewrite Hconnect. simpl. rewrite Hadd. simpl.
  by rewrite Hkind.
Qed.

(** An index at or past the end of the cached results, or no cached results:
    the selection is rejected without a call to Transmission. *)
Lemma select_torrent_rejected e user_id data c i :
  data ≠ "cancel" → py_int data = Ret i →
  Z.of_nat (length (default [] (c !! user_id))) ≤ i ∨ c !! user_id = None →
  select_torrent e user_id data (World c [])
  = (Ret SEARCH, World c [AnswerQuery; EditText InvalidSelection]).
Proof.
  intros Hdata Hint Hi.
  unfold select_torrent. run_M.
  apply String.eqb_neq in Hdata. rewrite Hdata, Hint. simpl.
  destruct Hi as [Hi| ->]; [|done].
  rewrite (proj2 (Z.leb_le _ _) Hi). by rewrite orb_true_r.
Qed.

(** ** Where the code leaves a cache entry behind *)

(** C1 at a failing input: user 1 selects the second of three cached results
    and Transmission refuses it.  The callback returns [SEARCH] and the cache
    entry of user 1 is still there (when Transmission accepts, it is gone). *)
Theorem refused_torrent_leaves_cache_entry :
  conversation_state awaiting 1 = SELECT_TORRENT ∧
  (handle_update [1] daemon_refuses awaiting (Update 1 (CallbackQuery "1"))).2
  = [AnswerQuery; EditText (Adding (VStr "ubuntu-10")); TransmissionClient;
     AddTorrent (VStr "magnet:?xt=10"); EditText (AddFailed "duplicate torrent")] ∧
  (let b' :=
     (handle_update [1] daemon_refuses awaiting (Update 1 (CallbackQuery "1"))).1 in
   spec_state (conversation_state b' 1) = Idle ∧
   conversation_state b' 1 = SEARCH ∧
   has_entry b' 1 ∧
   cache b' !! 1 = cache awaiting !! 1) ∧
  (let b' :=
     (handle_update [1] all_up awaiting (Update 1 (CallbackQuery "1"))).1 in
   conversation_state b' 1 = SEARCH ∧ cache b' !! 1 = None).
Proof.
  split; [reflexivity|]. split; [reflexivity|]. split.
  - cbv zeta. split; [reflexivity|]. split; [reflexivity|].
    split; [|reflexivity]. eexists. reflexivity.
  - split; reflexivity.
Qed.

(** C2 at failing inputs: after the cancel button, after the rejection of a
    result without a locator, and after an index past the end, user 1 is in
    [SEARCH] (Idle) and still has a cache entry. *)
Theorem idle_user_keeps_cache_entry :
  (let b' :=
     (handle_update [1] all_up awaiting (Update 1 (CallbackQuery "cancel"))).1 in
   conversation_state b' 1 = SEARCH ∧ has_entry b' 1) ∧
  (handle_update [1] bare_up awaiting_bare (Update 1 (CallbackQuery "0"))).2
  = [AnswerQuery; EditText NoMagnet] ∧
  (let b' :=
     (handle_update [1] bare_up awaiting_bare (Update 1 (CallbackQuery "0"))).1 in
   conversation_state b' 1 = SEARCH ∧ has_entry b' 1) ∧
  (handle_update [1] all_up awaiting (Update 1 (CallbackQuery "5"))).2
  = [AnswerQuery; EditText InvalidSelection] ∧
  (let b' :=
     (handle_update [1] all_up awaiting (Update 1 (CallbackQuery "5"))).1 in
   conversation_state b' 1 = SEARCH ∧ has_entry b' 1).
Proof.
  repeat (cbv zeta; match goal with |- _ ∧ _ => split end);
    first [reflexivity | eexists; reflexivity].
Qed.

(** C3 at a failing input: with three cached results, the payload "-1" is
    taken as an index from the end, the last result is handed to Transmission
    and reported as added; the payload "-4" ends in the generic error text,
    not in the invalid-selection message. *)
Theorem negative_index_is_accepted :
  conversation_state awaiting 1 = SELECT_TORRENT ∧
  length <$> cache awaiting !! 1 = Some 3%nat ∧
  py_int "-1" = Ret (-1) ∧
  (handle_update [1] all_up awaiting (Update 1 (CallbackQuery "-1"))).2
  = [AnswerQuery; EditText (Adding (VStr "ubuntu-5")); TransmissionClient;
     AddTorrent (VStr "magnet:?xt=5");
     EditText (Added (VStr "ubuntu-5") (SizeB 700) (VStr "Unknown")
                 "2025-03-20 12:00:00")] ∧
  (handle_update [1] all_up awaiting (Update 1 (CallbackQuery "-4"))).2
  = [AnswerQuery; EditText (SelectionFailed "list index out of range")].
Proof. repeat split. Qed.

(** The half of the cache invariant that holds in every run of the bot keyed
    by user: a user whose conversation awaits a selection has a cache
    entry. *)
Lemma awaiting_selection_has_entry ALLOWED_USERS events :
  awaiting_has_entry (run ALLOWED_USERS initial events).
Proof. apply run_awaiting. intros user_id. by unfold conversation_state. Qed.

(** ** Scenarios of the specification *)

(** Scenario A: seeds 5, 50, 10 are shown as 50, 10, 5. *)
Example scenario_a :
  map seeds (search_jackett (provider_up "ubuntu")) = [VInt 50; VInt 10; VInt 5].
Proof. reflexivity. Qed.

(** Scenario B: index 1 of three results, Transmission accepts. *)
Example scenario_b :
  (handle_update [1] all_up awaiting (Update 1 (CallbackQuery "1"))).2
  = [AnswerQuery; EditText (Adding (VStr "ubuntu-10")); TransmissionClient;
     AddTorrent (VStr "magnet:?xt=10");
     EditText (Added (VStr "ubuntu-10") (SizeB 700) (VStr "Unknown")
                 "2025-03-20 12:00:00")] ∧
  unknown_to (handle_update [1] all_up awaiting (Update 1 (CallbackQuery "1"))).1 2.
Proof. repeat split. Qed.

(** Scenario C: index 5 of three results is rejected without a call to
    Transmission. *)
Example scenario_c :
  (handle_update [1] all_up awaiting (Update 1 (CallbackQuery "5"))).2
  = [AnswerQuery; EditText InvalidSelection] ∧
  filter daemon_call
    (handle_update [1] all_up awaiting (Update 1 (CallbackQuery "5"))).2 = [].
Proof. repeat split. Qed.

(** ** [int(str(i))] *)

Lemma digit_of_pretty_N_char d :
  (d < 10)%N → digit_of (pretty_N_char d) = Some (Z.of_N d).
Proof.
  intros Hd.
  assert (d = 0 ∨ d = 1 ∨ d = 2 ∨ d = 3 ∨ d = 4 ∨ d = 5 ∨ d = 6 ∨ d = 7
          ∨ d = 8 ∨ d = 9)%N as Hcases by lia.
  repeat (destruct Hcases as [->|Hcases]; [reflexivity|]). by subst.
Qed.

Lemma digit_not_space c : is_digit c → is_space c = false.
Proof.
  intros [d Hd]. destruct c as [[] [] [] [] [] [] [] []]; try done;
    vm_compute in Hd; discriminate.
Qed.

Lemma digits_app_digit acc b c d rest :
  digit_of c = Some d → digits acc b (c :: rest) = digits (10 * acc + d) true rest.
Proof. intros H. simpl. by rewrite H. Qed.

(** The characters [pretty_N_go] puts in front of [s]: decimal digits that
    read back as [x]. *)
Lemma pretty_N_go_digits x :
  (0 < x)%N →
  ∃ p : list ascii,
    p ≠ [] ∧ Forall is_digit p ∧
    (∀ s, String.list_ascii_of_string (pretty_N_go x s)
          = p ++ String.list_ascii_of_string s) ∧
    (∀ acc b rest,
       digits acc b (p ++ rest)
       = digits (acc * 10 ^ Z.of_nat (length p) + Z.of_N x) true rest).
Proof.
  induction (N.lt_wf_0 x) as [x _ IH]; intros Hx.
  pose proof (N.mod_lt x 10 ltac:(done)) as Hmod.
  pose proof (digit_of_pretty_N_char _ Hmod) as Hdigit.
  destruct (decide (x `div` 10 = 0)%N) as [Hdiv|Hdiv].
  - exists [pretty_N_char (x `mod` 10)]. split; [done|]. split.
    { constructor; [by eexists|constructor]. }
    split.
    + intros s. rewrite pretty_N_go_step by done. by rewrite Hdiv.
    + intros acc b rest. simpl. rewrite Hdigit. f_equal.
      pose proof (N.div_mod x 10 ltac:(done)) as Hx10. lia.
  - destruct (IH (x `div` 10)%N) as (p & Hne & Hall & Hgo & Hval).
    { by apply N.div_lt. }
    { by apply N.neq_0_lt_0. }
    exists (p ++ [pretty_N_char (x `mod` 10)]). split.
    { by destruct p. }
    split.
    { apply Forall_app. split; [done|]. constructor; [by eexists|constructor]. }
    split.
    + intros s. rewrite pretty_N_go_step by done. rewrite Hgo. simpl.
      by rewrite <- app_assoc.
    + intros acc b rest. rewrite <- app_assoc. simpl. rewrite Hval.
      rewrite (digits_app_digit _ _ _ _ _ Hdigit). f_equal.
      rewrite length_app. simpl.
      replace (Z.of_nat (length p + 1)) with (Z.of_nat (length p) + 1) by lia.
      rewrite Z.pow_add_r, Z.pow_1_r by lia.
      pose proof (N.div_mod x 10 ltac:(done)) as Hx10. lia.
Qed.

Lemma lstrip_digit c l : is_digit c → lstrip (c :: l) = c :: l.
Proof. intros Hc. simpl. by rewrite (digit_not_space c Hc). Qed.

Lemma strip_digits p : p ≠ [] → Forall is_digit p → strip p = p.
Proof.
  intros Hne Hall. unfold strip.
  destruct p as [|c p]; [done|].
  rewrite lstrip_digit by by inversion Hall.
  assert (Forall is_digit (reverse (c :: p))) as Hrev by by apply Forall_reverse.
  destruct (reverse (c :: p)) as [|c' p'] eqn:Heq.
  { apply (f_equal length) in Heq. rewrite length_reverse in Heq. done. }
  rewrite lstrip_digit by by inversion Hrev.
  by rewrite <- Heq, reverse_involutive.
Qed.

Lemma digit_not_int_space c : is_digit c → int_space c = false.
Proof.
  intros [d Hd]. destruct c as [[] [] [] [] [] [] [] []]; try done;
    vm_compute in Hd; discriminate.
Qed.

Lemma int_lstrip_digit c l : is_digit c → int_lstrip (c :: l) = c :: l.
Proof. intros Hc. simpl. by rewrite (digit_not_int_space c Hc). Qed.

Lemma int_strip_digits p : p ≠ [] → Forall is_digit p → int_strip p = p.
Proof.
  intros Hne Hall. unfold int_strip.
  destruct p as [|c p]; [done|].
  rewrite int_lstrip_digit by by inversion Hall.
  assert (Forall is_digit (reverse (c :: p))) as Hrev by by apply Forall_reverse.
  destruct (reverse (c :: p)) as [|c' p'] eqn:Heq.
  { apply (f_equal length) in Heq. rewrite length_reverse in Heq. done. }
  rewrite int_lstrip_digit by by inversion Hrev.
  by rewrite <- Heq, reverse_involutive.
Qed.

Lemma int_strip_minus_digits p :
  p ≠ [] → Forall is_digit p → int_strip ("-"%char :: p) = "-"%char :: p.
Proof.
  intros Hne Hall. unfold int_strip. simpl int_lstrip.
  assert (Forall is_digit (reverse p)) as Hrev by by apply Forall_reverse.
  rewrite reverse_cons.
  destruct (reverse p) as [|c' p'] eqn:Heq.
  { apply (f_equal length) in Heq. rewrite length_reverse in Heq.
    by destruct p. }
  simpl app. rewrite int_lstrip_digit by by inversion Hrev.
  change (c' :: p' ++ ["-"%char]) with ((c' :: p') ++ ["-"%char]).
  by rewrite <- Heq, <- reverse_cons, reverse_involutive.
Qed.

Lemma parse_int_digits p :
  p ≠ [] → Forall is_digit p → parse_int p = digits 0 false p.
Proof.
  intros Hne Hall. unfold parse_int. rewrite (int_strip_digits p Hne Hall).
  destruct p as [|c p]; [done|].
  apply Forall_cons in Hall as [[d Hd] _].
  destruct c as [[] [] [] [] [] [] [] []]; try done; vm_compute in Hd; discriminate.
Qed.

(** [str(n)] for a natural number: decimal digits that read back as [n]. *)
Lemma pretty_N_chars (n : N) :
  ∃ p : list ascii,
    p ≠ [] ∧ Forall is_digit p ∧
    String.list_ascii_of_string (pretty n) = p ∧
    digits 0 false p = Some (Z.of_N n).
Proof.
  unfold pretty, pretty_N. case_decide as Hn.
  - subst. exists ["0"%char]. repeat split; [done|].
    constructor; [by eexists|constructor].
  - destruct (pretty_N_go_digits n) as (p & Hne & Hall & Hgo & Hval); [lia|].
    exists p. split; [done|]. split; [done|]. split.
    + rewrite Hgo. simpl. apply app_nil_r.
    + rewrite <- (app_nil_r p). rewrite Hval. simpl. f_equal; lia.
Qed.

Lemma strip_minus_digits p :
  p ≠ [] → Forall is_digit p → strip ("-"%char :: p) = "-"%char :: p.
Proof.
  intros Hne Hall. unfold strip. simpl lstrip.
  assert (Forall is_digit (reverse p)) as Hrev by by apply Forall_reverse.
  rewrite reverse_cons.
  destruct (reverse p) as [|c' p'] eqn:Heq.
  { apply (f_equal length) in Heq. rewrite length_reverse in Heq.
    by destruct p. }
  simpl app. rewrite lstrip_digit by by inversion Hrev.
  change (c' :: p' ++ ["-"%char]) with ((c' :: p') ++ ["-"%char]).
  by rewrite <- Heq, <- reverse_cons, reverse_involutive.
Qed.

Lemma parse_int_pretty_Z (z : Z) :
  parse_int (String.list_ascii_of_string (pretty z)) = Some z.
Proof.
  destruct z as [|x|x]; [done| |].
  - destruct (pretty_N_chars (N.pos x)) as (p & Hne & Hall & Hp & Hval).
    change (pretty (Z.pos x)) with (pretty (N.pos x)).
    by rewrite Hp, parse_int_digits.
  - destruct (pretty_N_chars (N.pos x)) as (p & Hne & Hall & Hp & Hval).
    change (pretty (Z.neg x)) with (String "-"%char (pretty (N.pos x))).
    simpl String.list_ascii_of_string. rewrite Hp.
    unfold parse_int. rewrite int_strip_minus_digits by done.
    by rewrite Hval.
Qed.

(** X2: [int(str(z))] is [z]: the decimal text of an integer, as a button
    carries it, is read back by [int] as the same integer. *)
Theorem py_int_pretty (z : Z) : py_int (pretty z) = Ret z.
Proof. unfold py_int. by rewrite parse_int_pretty_Z. Qed.

(** ** From the keyboard to the selection *)

Lemma py_int_pretty_nat (k : nat) : py_int (pretty k) = Ret (Z.of_nat k).
Proof.
  unfold py_int. change (pretty k) with (pretty (N.of_nat k)).
  destruct (pretty_N_chars (N.of_nat k)) as (p & Hne & Hall & -> & Hval).
  rewrite parse_int_digits, Hval by done. do 2 f_equal. lia.
Qed.

Lemma list_index_lookup {A} (l : list A) (k : nat) x :
  l !! k = Some x → list_index l (Z.of_nat k) = Ret x.
Proof.
  intros Hk. pose proof (lookup_lt_Some _ _ _ Hk) as Hlt.
  unfold list_index.
  rewrite (proj2 (Z.ltb_ge _ 0)) by lia.
  rewrite (proj2 (Z.leb_le 0 _)), (proj2 (Z.ltb_lt _ _)) by lia.
  simpl. by rewrite Nat2Z.id, Hk.
Qed.

Lemma list_index_elem {A} (l : list A) i x : list_index l i = Ret x → x ∈ l.
Proof.
  unfold list_index. destruct (_ && _); [|done].
  destruct (l !! _) eqn:Hl; [|done]. intros [= <-].
  by eapply list_elem_of_lookup_2.
Qed.

Lemma keyboard_rows_lookup i results kb :
  keyboard_rows i results = Ret kb →
  length kb = length results ∧
  ∀ k t, results !! k = Some t →
    ∃ size_str,
      format_size (get "size" (VInt 0) t) = Ret size_str ∧
      kb !! k = Some (Button (TorrentLabel (S (i + k)) t size_str)
                             (pretty (i + k)%nat)).
Proof.
  revert i kb. induction results as [|t0 results IH]; intros i kb; simpl.
  - intros [= <-]. split; [done|]. intros k t Hk. by rewrite lookup_nil in Hk.
  - destruct (format_size _) as [sz|] eqn:Hsz; [|done].
    destruct (keyboard_rows (S i) results) as [rows|] eqn:Hrows; [|done].
    intros [= <-]. destruct (IH _ _ Hrows) as [Hlen Hrest]. split.
    + simpl. by rewrite Hlen.
    + intros [|k] t Hk; simpl in *.
      * injection Hk as <-. exists sz. by rewrite Nat.add_0_r.
      * destruct (Hrest k t Hk) as (sz' & Hsz' & Hkb).
        exists sz'. split; [done|]. rewrite Hkb. do 3 f_equal; lia.
Qed.

(** What [search_torrent] does for an allowed user when the adapter returns
    results. *)
Lemma search_torrent_found ALLOWED_USERS e user_id query c :
  user_id ∈ ALLOWED_USERS →
  search_jackett (jackett e query) ≠ [] →
  let results := search_jackett (jackett e query) in
  search_torrent ALLOWED_USERS e user_id query (World c [])
  = match keyboard_rows 0 results with
    | Ret keyboard =>
        (Ret SELECT_TORRENT,
         World (<[user_id := results]> c)
           [ReplyText (Searching query); JackettGet query;
            EditText (SelectPrompt (keyboard ++ [Button CancelLabel "cancel"]))])
    | Raise ex =>
        (Ret SEARCH,
         World (<[user_id := results]> c)
           [ReplyText (Searching query); JackettGet query;
            EditText (SearchFailed (str200 ex))])
    end.
Proof.
  intros Hin Hne results. unfold search_torrent. run_M.
  rewrite check_user_allowed by done. simpl.
  fold results. destruct results as [|t results'] eqn:Hres; [done|].
  simpl is_empty. cbv iota.
  by destruct (keyboard_rows 0 (t :: results')).
Qed.

Lemma search_torrent_nothing ALLOWED_USERS e user_id query c :
  user_id ∈ ALLOWED_USERS →
  search_jackett (jackett e query) = [] →
  search_torrent ALLOWED_USERS e user_id query (World c [])
  = (Ret SEARCH,
     World c [ReplyText (Searching query); JackettGet query; EditText NoResults]).
Proof.
  intros Hin Hempty. unfold search_torrent. run_M.
  rewrite check_user_allowed by done. simpl. by rewrite Hempty.
Qed.

(** A search that ends in [SELECT_TORRENT]: the user is allowed, the adapter
    returned results, and a button could be built for each of them. *)
Lemma handle_search_selecting ALLOWED_USERS e b user_id query :
  conversation_state b user_id = SEARCH →
  conversation_state
    (handle_update ALLOWED_USERS e b (Update user_id (TextMessage query))).1 user_id
  = SELECT_TORRENT →
  ∃ keyboard,
    keyboard_rows 0 (search_jackett (jackett e query)) = Ret keyboard ∧
    handle_update ALLOWED_USERS e b (Update user_id (TextMessage query))
    = (Bot (<[user_id := SELECT_TORRENT]> (conversations b))
           (<[user_id := search_jackett (jackett e query)]> (cache b)),
       [ReplyText (Searching query); JackettGet query;
        EditText (SelectPrompt (keyboard ++ [Button CancelLabel "cancel"]))]).
Proof.
  intros Hs. unfold handle_update. simpl. rewrite Hs. simpl.
  destruct (decide (user_id ∈ ALLOWED_USERS)) as [Hin|Hout].
  - destruct (decide (search_jackett (jackett e query) = [])) as [Hempty|Hne].
    + rewrite (search_torrent_nothing _ _ _ _ _ Hin Hempty). simpl.
      by rewrite (conversation_state_update b _ user_id SEARCH).
    + rewrite (search_torrent_found _ _ _ _ _ Hin Hne).
      destruct (keyboard_rows 0 _) as [kb|ex] eqn:Hkb; simpl.
      * intros _. by exists kb.
      * by rewrite (conversation_state_update b _ user_id SEARCH).
  - unfold search_torrent, check_user. rewrite (refused _ _ Hout). simpl.
    unfold conversation_state. simpl. by rewrite lookup_delete_eq.
Qed.

(** X3: a search that ends in [SELECT_TORRENT] has stored the adapter's result
    set under the user's key, replacing what was there, and has sent one
    button per result, in order, followed by the cancel button.  Button [k]
    is numbered [k + 1] and carries the text of [k], which [int] reads back as
    [k] and which indexes the very result the button shows. *)
Theorem search_shows_one_button_per_result
    (ALLOWED_USERS : list Z) (e : env) (b : bot) (user_id : Z) (query : string) :
  conversation_state b user_id = SEARCH →
  conversation_state
    (handle_update ALLOWED_USERS e b (Update user_id (TextMessage query))).1 user_id
  = SELECT_TORRENT →
  let results := search_jackett (jackett e query) in
  let b' := (handle_update ALLOWED_USERS e b (Update user_id (TextMessage query))).1 in
  ∃ keyboard,
    (handle_update ALLOWED_USERS e b (Update user_id (TextMessage query))).2
    = [ReplyText (Searching query); JackettGet query;
       EditText (SelectPrompt (keyboard ++ [Button CancelLabel "cancel"]))] ∧
    cache b' = <[user_id := results]> (cache b) ∧
    length keyboard = length results ∧
    ∀ k t, results !! k = Some t →
      ∃ size_str,
        keyboard !! k
        = Some (Button (TorrentLabel (S k) t size_str) (pretty k)) ∧
        py_int (pretty k) = Ret (Z.of_nat k) ∧
        list_index results (Z.of_nat k) = Ret t.
Proof.
  intros Hs Hs'.
  destruct (handle_search_selecting _ _ _ _ _ Hs Hs') as (kb & Hkb & ->).
  cbv zeta. simpl. exists kb. split; [done|]. split; [done|].
  destruct (keyboard_rows_lookup _ _ _ Hkb) as [Hlen Hrows].
  split; [done|]. intros k t Hk.
  destruct (Hrows k t Hk) as (sz & _ & Hbutton).
  exists sz. split; [done|].
  split; [apply py_int_pretty_nat|by apply list_index_lookup].
Qed.

Lemma search_shows_one_button_per_result_witness :
  ∃ keyboard,
    (handle_update [1] all_up searching (Update 1 (TextMessage "ubuntu"))).2
    = [ReplyText (Searching "ubuntu"); JackettGet "ubuntu";
       EditText (SelectPrompt (keyboard ++ [Button CancelLabel "cancel"]))] ∧
    cache (handle_update [1] all_up searching (Update 1 (TextMessage "ubuntu"))).1
    = <[1 := search_jackett (jackett all_up "ubuntu")]> (cache searching) ∧
    length keyboard = length (search_jackett (jackett all_up "ubuntu")) ∧
    ∀ k t, search_jackett (jackett all_up "ubuntu") !! k = Some t →
      ∃ size_str,
        keyboard !! k
        = Some (Button (TorrentLabel (S k) t size_str) (pretty k)) ∧
        py_int (pretty k) = Ret (Z.of_nat k) ∧
        list_index (search_jackett (jackett all_up "ubuntu")) (Z.of_nat k) = Ret t.
Proof.
  apply (search_shows_one_button_per_result [1] all_up searching 1 "ubuntu");
    reflexivity.
Defined.

Lemma handle_update_select ALLOWED_USERS e b user_id data s c' tr :
  conversation_state b user_id = SELECT_TORRENT →
  select_torrent e user_id data (World (cache b) []) = (Ret s, World c' tr) →
  handle_update ALLOWED_USERS e b (Update user_id (CallbackQuery data))
  = (Bot (update_state user_id s (conversations b)) c', tr).
Proof.
  intros Hs Hsel. unfold handle_update. simpl. rewrite Hs. simpl.
  by rewrite Hsel.
Qed.

Lemma pretty_nat_not_cancel (k : nat) : pretty k ≠ "cancel".
Proof.
  intros Heq. pose proof (py_int_pretty_nat k) as Hint.
  rewrite Heq in Hint. discriminate.
Qed.

(** X4: pressing a button adds the result it shows.  After a search that
    ends in [SELECT_TORRENT], the payload of button [k] makes the selection
    callback hand the locator of result [k], and nothing else, to
    Transmission; when Transmission takes it, the user is told so, the cache
    entry is removed and the conversation is back in [SEARCH]. *)
Theorem pressing_a_button_adds_its_result
    (ALLOWED_USERS : list Z) (e1 e2 : env) (b : bot) (user_id : Z)
    (query : string) (k : nat) (t : dict) :
  conversation_state b user_id = SEARCH →
  conversation_state
    (handle_update ALLOWED_USERS e1 b (Update user_id (TextMessage query))).1 user_id
  = SELECT_TORRENT →
  search_jackett (jackett e1 query) !! k = Some t →
  truthy (get "magnet" (VStr "") t) = true →
  connect e2 = None →
  add_torrent e2 (get "magnet" (VStr "") t) = None →
  let b1 := (handle_update ALLOWED_USERS e1 b (Update user_id (TextMessage query))).1 in
  ∃ keyboard button size_str,
    (handle_update ALLOWED_USERS e1 b (Update user_id (TextMessage query))).2
    = [ReplyText (Searching query); JackettGet query;
       EditText (SelectPrompt (keyboard ++ [Button CancelLabel "cancel"]))] ∧
    keyboard !! k = Some button ∧
    label button = TorrentLabel (S k) t size_str ∧
    (handle_update ALLOWED_USERS e2 b1
       (Update user_id (CallbackQuery (callback_data button)))).2
    = [AnswerQuery; EditText (Adding (get "title" (VStr "Unknown") t));
       TransmissionClient; AddTorrent (get "magnet" (VStr "") t);
       EditText (Added (get "title" (VStr "Unknown") t) size_str
                   (get "tracker" (VStr "Unknown") t) (now e2))] ∧
    (let b2 := (handle_update ALLOWED_USERS e2 b1
                  (Update user_id (CallbackQuery (callback_data button)))).1 in
     conversation_state b2 user_id = SEARCH ∧
     cache b2 !! user_id = None ∧
     ∀ other, other ≠ user_id → cache b2 !! other = cache b !! other).
Proof.
  intros Hs Hs' Hk Hmagnet Hconnect Hadd.
  destruct (handle_search_selecting _ _ _ _ _ Hs Hs') as (kb & Hkb & ->).
  cbv zeta. simpl fst. simpl snd.
  destruct (keyboard_rows_lookup _ _ _ Hkb) as [Hlen Hrows].
  destruct (Hrows k t Hk) as (sz & Hsz & Hbutton). simpl in Hbutton.
  eexists kb, _, sz. split; [done|]. split; [exact Hbutton|]. split; [done|].
  simpl callback_data.
  pose proof (lookup_lt_Some _ _ _ Hk) as Hlt.
  assert (select_torrent e2 user_id (pretty k)
            (World (<[user_id := search_jackett (jackett e1 query)]> (cache b)) [])
          = (Ret SEARCH,
             World (delete user_id
                      (<[user_id := search_jackett (jackett e1 query)]> (cache b)))
               [AnswerQuery; EditText (Adding (get "title" (VStr "Unknown") t));
                TransmissionClient; AddTorrent (get "magnet" (VStr "") t);
                EditText (Added (get "title" (VStr "Unknown") t) sz
                            (get "tracker" (VStr "Unknown") t) (now e2))]))
    as Hsel.
  { eapply (select_torrent_added e2 user_id (pretty k) _ (Z.of_nat k)); eauto.
    - apply pretty_nat_not_cancel.
    - apply py_int_pretty_nat.
    - apply lookup_insert_eq.
    - lia.
    - by rewrite Nat2Z.id. }
  rewrite (handle_update_select _ _ _ _ _ _ _ _
             (conversation_state_update b _ user_id SELECT_TORRENT) Hsel).
  simpl. split; [done|]. split; [|split].
  - unfold conversation_state. simpl. by rewrite lookup_insert_eq.
  - apply lookup_delete_eq.
  - intros other Hne. by rewrite lookup_delete_ne, lookup_insert_ne.
Qed.

Lemma pressing_a_button_adds_its_result_witness :
  ∃ keyboard button size_str,
    (handle_update [1] all_up searching (Update 1 (TextMessage "ubuntu"))).2
    = [ReplyText (Searching "ubuntu"); JackettGet "ubuntu";
       EditText (SelectPrompt (keyboard ++ [Button CancelLabel "cancel"]))] ∧
    keyboard !! 2%nat = Some button ∧
    label button = TorrentLabel 3 (format_result (raw "ubuntu-5" 5 "magnet:?xt=5"))
                     size_str ∧
    (handle_update [1] all_up awaiting
       (Update 1 (CallbackQuery (callback_data button)))).2
    = [AnswerQuery; EditText (Adding (VStr "ubuntu-5"));
       TransmissionClient; AddTorrent (VStr "magnet:?xt=5");
       EditText (Added (VStr "ubuntu-5") size_str (VStr "Unknown")
                   "2025-03-20 12:00:00")] ∧
    (let b2 := (handle_update [1] all_up awaiting
                  (Update 1 (CallbackQuery (callback_data button)))).1 in
     conversation_state b2 1 = SEARCH ∧
     cache b2 !! 1 = None ∧
     ∀ other, other ≠ 1 → cache b2 !! other = cache searching !! other).
Proof.
  exact (pressing_a_button_adds_its_result [1] all_up all_up searching 1 "ubuntu"
           2 (format_result (raw "ubuntu-5" 5 "magnet:?xt=5"))
           eq_refl eq_refl eq_refl eq_refl eq_refl eq_refl).
Defined.

(** ** What the cache holds *)

Lemma search_jackett_result_set http :
  search_jackett http ≠ [] → result_set (search_jackett http).
Proof.
  intros Hne. split; [done|].
  destruct (search_jackett_cases http) as [Hempty|(rs & s & _ & Hs & ->)]; [done|].
  split; [|split].
  - rewrite length_map, length_take. lia.
  - eapply StronglySorted_map, StronglySorted_take, sorted_reverse_sorted, Hs.
    intros x y. unfold key_ge. by rewrite !seeds_format_result.
  - apply Forall_forall. intros t (r & -> & _)%list_elem_of_fmap. by exists r.
Qed.

(** What a callback leaves in the cache: what was there, or that without the
    user's entry, or that with the adapter's non-empty result set stored for
    the user, who is then allowed. *)
Lemma run_callback_stored ALLOWED_USERS e user_id h c :
  ∃ s c' tr,
    run_callback ALLOWED_USERS e user_id h (World c []) = (Ret s, World c' tr) ∧
    (c' = c ∨ c' = delete user_id c ∨
     ∃ query, user_id ∈ ALLOWED_USERS ∧
              search_jackett (jackett e query) ≠ [] ∧
              c' = <[user_id := search_jackett (jackett e query)]> c).
Proof.
  destruct h as [|query|data| |]; simpl.
  - unfold start, check_user, is_user_allowed. run_M.
    case_bool_decide; simpl; eexists _, _, _; (split; [reflexivity|]); by left.
  - destruct (decide (user_id ∈ ALLOWED_USERS)) as [Hin|Hout].
    + destruct (decide (search_jackett (jackett e query) = [])) as [Hempty|Hne].
      * rewrite (search_torrent_nothing _ _ _ _ _ Hin Hempty).
        eexists _, _, _. split; [reflexivity|]. by left.
      * rewrite (search_torrent_found _ _ _ _ _ Hin Hne).
        destruct (keyboard_rows 0 _); eexists _, _, _; (split; [reflexivity|]);
          right; right; by exists query.
    + unfold search_torrent, check_user. rewrite (refused _ _ Hout). simpl.
      eexists _, _, _. split; [reflexivity|]. by left.
  - destruct (select_torrent_cases e user_id data c) as [tr [-> | ->]];
      eexists _, _, _; (split; [reflexivity|]); [by left|right; by left].
  - unfold status, check_user, is_user_allowed. run_M.
    case_bool_decide; simpl; [split_cases|];
      eexists _, _, _; (split; [reflexivity|]); by left.
  - unfold cancel. run_M. eexists _, _, _. split; [reflexivity|]. right. by left.
Qed.

Lemma handle_update_well_formed ALLOWED_USERS e b u :
  cache_well_formed ALLOWED_USERS b →
  cache_well_formed ALLOWED_USERS (handle_update ALLOWED_USERS e b u).1.
Proof.
  intros Hinv. unfold handle_update.
  destruct (check_update _ _) as [h|]; [|done].
  destruct (run_callback_stored ALLOWED_USERS e (effective_user u) h (cache b))
    as (s & c' & tr & -> & Hc). simpl.
  intros user_id results. simpl.
  destruct Hc as [->|[->|(query & Hin & Hne & ->)]].
  - apply Hinv.
  - intros [_ Hl]%lookup_delete_Some. by apply Hinv.
  - intros [[<- <-]|[_ Hl]]%lookup_insert_Some.
    + split; [done|]. by apply search_jackett_result_set.
    + by apply Hinv.
Qed.

Lemma run_well_formed ALLOWED_USERS events b :
  cache_well_formed ALLOWED_USERS b →
  cache_well_formed ALLOWED_USERS (run ALLOWED_USERS b events).
Proof.
  revert b. induction events as [|[e u] events IH]; intros b Hb; simpl; [done|].
  by apply IH, handle_update_well_formed.
Qed.

(** X7: whatever updates the bot has handled, every entry of the cache
    belongs to a user on the allow-list and is a result set of the adapter:
    between 1 and 10 formatted results, sorted by seed count, greatest
    first. *)
Theorem cache_holds_result_sets_of_allowed_users
    (ALLOWED_USERS : list Z) (events : list (env * update))
    (user_id : Z) (results : list dict) :
  cache (run ALLOWED_USERS initial events) !! user_id = Some results →
  user_id ∈ ALLOWED_USERS ∧ result_set results.
Proof.
  apply (run_well_formed ALLOWED_USERS events initial).
  intros user_id' results' Hl. simpl in Hl. by rewrite lookup_empty in Hl.
Qed.

Lemma cache_holds_result_sets_of_allowed_users_witness :
  1 ∈ [1] ∧ result_set (search_jackett (provider_up "ubuntu")).
Proof.
  exact (cache_holds_result_sets_of_allowed_users [1]
           [(all_up, Update 1 (Command "start"));
            (all_up, Update 1 (TextMessage "ubuntu"))]
           1 (search_jackett (provider_up "ubuntu")) eq_refl).
Defined.

(** ** What every callback does *)

(** X13: each callback calls only its own collaborator, and at most once:
    [start] and [cancel] call neither Jackett nor Transmission;
    [search_torrent] sends at most one request to Jackett and never calls
    Transmission; [status] never calls Jackett and never adds a torrent;
    [select_torrent] never calls Jackett, never lists the jobs and adds at
    most one torrent. *)
Theorem callbacks_call_their_collaborator_only
    (ALLOWED_USERS : list Z) (e : env) (user_id : Z) (h : callback)
    (c : gmap Z (list dict)) :
  ∃ s c' tr,
    run_callback ALLOWED_USERS e user_id h (World c []) = (Ret s, World c' tr) ∧
    match h with
    | h_start | h_cancel =>
        filter jackett_call tr = [] ∧ filter daemon_call tr = []
    | h_search_torrent query =>
        filter daemon_call tr = [] ∧
        (filter jackett_call tr = [] ∨ filter jackett_call tr = [JackettGet query])
    | h_status =>
        filter jackett_call tr = [] ∧
        (filter daemon_call tr = [] ∨ filter daemon_call tr = [TransmissionClient]
         ∨ filter daemon_call tr = [TransmissionClient; GetTorrents])
    | h_select_torrent _ =>
        filter jackett_call tr = [] ∧
        (filter daemon_call tr = [] ∨ filter daemon_call tr = [TransmissionClient]
         ∨ ∃ magnet_link,
             filter daemon_call tr = [TransmissionClient; AddTorrent magnet_link])
    end.
Proof.
  destruct h as [|query|data| |]; simpl.
  - unfold start, check_user, is_user_allowed. run_M.
    case_bool_decide; simpl; callback_cases; by split.
  - unfold search_torrent, check_user, is_user_allowed. run_M.
    case_bool_decide; simpl; [split_cases|]; callback_cases;
      (split; [done|]); by eauto.
  - unfold select_torrent. run_M. split_cases; callback_cases;
      (split; [done|]); by eauto 6.
  - unfold status, check_user, is_user_allowed. run_M.
    case_bool_decide; simpl; [split_cases|]; callback_cases;
      (split; [done|]); by eauto.
  - unfold cancel. run_M. callback_cases; by split.
Qed.

(** X14: every error text a callback shows to the user has at most 200
    characters of detail. *)
Theorem callbacks_bound_error_details
    (ALLOWED_USERS : list Z) (e : env) (user_id : Z) (h : callback)
    (c : gmap Z (list dict)) :
  ∃ s c' tr,
    run_callback ALLOWED_USERS e user_id h (World c []) = (Ret s, World c' tr) ∧
    Forall (λ x, ∀ detail, error_detail x = Some detail →
                           (String.length detail ≤ 200)%nat) tr.
Proof.
  destruct h as [|query|data| |]; simpl;
    unfold start, search_torrent, select_torrent, status, cancel,
      check_user, is_user_allowed;
    run_M; try case_bool_decide; simpl; split_cases; callback_cases;
    repeat (apply Forall_cons; split); try (by apply Forall_nil);
    simpl; intros detail Hdetail; try discriminate;
    injection Hdetail as <-; apply str200_length.
Qed.

(** ** What is handed to Transmission *)

Lemma select_torrent_submits e user_id data c s c' tr magnet_link :
  select_torrent e user_id data (World c []) = (Ret s, World c' tr) →
  AddTorrent magnet_link ∈ tr →
  ∃ results t,
    c !! user_id = Some results ∧ t ∈ results ∧
    get "magnet" (VStr "") t = magnet_link ∧ truthy magnet_link = true.
Proof.
  unfold select_torrent. run_M.
  split_cases; intros [= <- <- <-] Hin;
    repeat (apply elem_of_cons in Hin as [Hin|Hin]; [try discriminate|]);
    try (by apply elem_of_nil in Hin);
    injection Hin as ->;
    match goal with
    | Hidx : list_index _ _ = Ret ?t, Htruthy : negb (truthy _) = false |- _ =>
        apply list_index_elem in Hidx; apply negb_false_iff in Htruthy;
        destruct (c !! user_id) as [results|] eqn:Hc; simpl in Hidx;
          [exists results, t; split; [done|]; split; [done|]; split; done
          |by apply elem_of_nil in Hidx]
    end.
Qed.

Lemma check_update_select s c data :
  check_update s c = Some (h_select_torrent data) →
  s = SELECT_TORRENT ∧ c = CallbackQuery data.
Proof.
  destruct s, c as [cmd| |]; simpl; repeat case_match; intros; by simplify_eq.
Qed.

(** X6: the only locators handed to Transmission are those of the cached
    results of the user who pressed the button, in a conversation that awaits
    a selection; an empty locator is never handed over. *)
Theorem only_cached_locators_are_submitted
    (ALLOWED_USERS : list Z) (e : env) (b : bot) (u : update) (magnet_link : value) :
  AddTorrent magnet_link ∈ (handle_update ALLOWED_USERS e b u).2 →
  conversation_state b (effective_user u) = SELECT_TORRENT ∧
  ∃ results t,
    cache b !! effective_user u = Some results ∧ t ∈ results ∧
    get "magnet" (VStr "") t = magnet_link ∧ truthy magnet_link = true.
Proof.
  unfold handle_update.
  destruct (check_update _ _) as [h|] eqn:Hcheck; simpl;
    [|by intros ?%elem_of_nil].
  destruct h as [|query|data| |].
  - simpl. unfold start, check_user, is_user_allowed. run_M.
    case_bool_decide; simpl; intros Hin;
      repeat (apply elem_of_cons in Hin as [Hin|Hin]; [discriminate|]);
      by apply elem_of_nil in Hin.
  - simpl. unfold search_torrent, check_user, is_user_allowed. run_M.
    case_bool_decide; simpl; [split_cases|]; intros Hin;
      repeat (apply elem_of_cons in Hin as [Hin|Hin]; [discriminate|]);
      by apply elem_of_nil in Hin.
  - assert (conversation_state b (effective_user u) = SELECT_TORRENT) as Hs.
    { by apply check_update_select in Hcheck as [-> _]. }
    simpl.
    destruct (select_torrent_cases e (effective_user u) data (cache b))
      as [tr [Hsel|Hsel]]; rewrite Hsel; simpl; intros Hin; (split; [done|]);
      eapply select_torrent_submits; eauto.
  - simpl. unfold status, check_user, is_user_allowed. run_M.
    case_bool_decide; simpl; [split_cases|]; intros Hin;
      repeat (apply elem_of_cons in Hin as [Hin|Hin]; [discriminate|]);
      by apply elem_of_nil in Hin.
  - simpl. unfold cancel. run_M. intros Hin.
    repeat (apply elem_of_cons in Hin as [Hin|Hin]; [discriminate|]).
    by apply elem_of_nil in Hin.
Qed.

Lemma refused_torrent_was_cached :
  AddTorrent (VStr "magnet:?xt=10")
  ∈ (handle_update [1] daemon_refuses awaiting (Update 1 (CallbackQuery "1"))).2.
Proof. apply (list_elem_of_lookup_2 _ 3). reflexivity. Defined.

Lemma only_cached_locators_are_submitted_witness :
  conversation_state awaiting 1 = SELECT_TORRENT ∧
  ∃ results t,
    cache awaiting !! 1 = Some results ∧ t ∈ results ∧
    get "magnet" (VStr "") t = VStr "magnet:?xt=10" ∧
    truthy (VStr "magnet:?xt=10") = true.
Proof.
  exact (only_cached_locators_are_submitted [1] daemon_refuses awaiting
           (Update 1 (CallbackQuery "1")) (VStr "magnet:?xt=10")
           refused_torrent_was_cached).
Defined.

(** ** Rejected selections *)

(** X5: while a selection is awaited, a payload that [int] reads as an
    integer (no longer than the digits [int] converts) at or past the end of
    the cached results, or as any integer when nothing is cached, is answered
    with the invalid-selection message; the conversation goes back to
    [SEARCH], the cache is left as it is and Transmission is not called. *)
Theorem selection_past_the_end_is_rejected
    (ALLOWED_USERS : list Z) (e : env) (b : bot) (user_id : Z)
    (data : string) (i : Z) :
  conversation_state b user_id = SELECT_TORRENT →
  (String.length data ≤ int_max_str_digits)%nat →
  py_int data = Ret i →
  Z.of_nat (length (default [] (cache b !! user_id))) ≤ i
  ∨ cache b !! user_id = None →
  handle_update ALLOWED_USERS e b (Update user_id (CallbackQuery data))
  = (Bot (<[user_id := SEARCH]> (conversations b)) (cache b),
     [AnswerQuery; EditText InvalidSelection]).
Proof.
  intros Hs _ Hint Hi.
  assert (data ≠ "cancel") as Hdata by (intros ->; discriminate).
  by rewrite (handle_update_select _ _ _ _ _ _ _ _ Hs
                (select_torrent_rejected e user_id data (cache b) i Hdata Hint Hi)).
Qed.

Lemma selection_past_the_end_is_rejected_witness :
  handle_update [1] all_up awaiting (Update 1 (CallbackQuery "3"))
  = (Bot (<[1 := SEARCH]> (conversations awaiting)) (cache awaiting),
     [AnswerQuery; EditText InvalidSelection]).
Proof.
  apply (selection_past_the_end_is_rejected [1] all_up awaiting 1 "3" 3);
    [reflexivity|vm_compute; lia|reflexivity|left; vm_compute; discriminate].
Defined.

(** ** Users do not interfere *)

(** X9: updates of other users, however many and whatever they are, leave a
    user's conversation state and cache entry as they were. *)
Theorem other_users_updates_leave_a_user_alone
    (ALLOWED_USERS : list Z) (events : list (env * update)) (b : bot) (user_id : Z) :
  Forall (λ event, effective_user event.2 ≠ user_id) events →
  conversation_state (run ALLOWED_USERS b events) user_id
  = conversation_state b user_id ∧
  cache (run ALLOWED_USERS b events) !! user_id = cache b !! user_id.
Proof.
  revert b. induction events as [|[e u] events IH]; intros b Hall; simpl; [done|].
  apply Forall_cons in Hall as [Hu Hall]. simpl in Hu.
  destruct (IH (handle_update ALLOWED_USERS e b u).1 Hall) as [-> ->].
  by apply handle_update_other.
Qed.

Lemma other_users_updates_leave_a_user_alone_witness :
  let events :=
    [(all_up, Update 2 (Command "start"));
     (all_up, Update 2 (TextMessage "debian"));
     (all_up, Update 2 (CallbackQuery "0"));
     (all_up, Update 2 (Command "cancel"))] in
  conversation_state (run [1; 2] awaiting events) 1 = conversation_state awaiting 1 ∧
  cache (run [1; 2] awaiting events) !! 1 = cache awaiting !! 1.
Proof.
  apply (other_users_updates_leave_a_user_alone [1; 2]).
  repeat (apply Forall_cons_2; [discriminate|]). apply Forall_nil_2.
Defined.

(** ** The ten results that are kept *)

(** X1: when the raw results can be sorted, the adapter formats the first 10
    of the sorted list, which is a rearrangement of the raw list: nothing is
    invented, nothing is dropped while there are at most 10, and a result
    that is dropped never has more seeders than one that is kept. *)
Theorem search_jackett_keeps_the_best_seeded (results s : list dict) :
  sorted_reverse seeders_key results = Ret s →
  search_jackett (Response 200 (BodyResults (Some results)))
  = map format_result (take 10 s) ∧
  s ≡ₚ results ∧
  length (search_jackett (Response 200 (BodyResults (Some results))))
  = (length results `min` 10)%nat ∧
  ∀ kept dropped, kept ∈ take 10 s → dropped ∈ drop 10 s →
                  key_ge seeders_key kept dropped.
Proof.
  intros Hs.
  assert (s ≡ₚ results) as Hperm.
  { destruct (sorted_reverse_comparable _ _ _ Hs) as [[-> _]|[-> _]]; [done|].
    apply sort_desc_Permutation. }
  rewrite (search_jackett_ok _ _ Hs). split; [done|]. split; [done|]. split.
  - rewrite length_map, length_take, Hperm. lia.
  - intros kept dropped (i & Hi & Hlt)%elem_of_take (j & Hj)%list_elem_of_lookup.
    rewrite lookup_drop in Hj.
    eapply (StronglySorted_lookup_lt _ s i (10 + j));
      eauto using sorted_reverse_sorted with lia.
Qed.

Lemma search_jackett_keeps_the_best_seeded_witness :
  search_jackett (Response 200 (BodyResults (Some many_results)))
  = map format_result (take 10 (sort_desc seeders_key many_results)) ∧
  sort_desc seeders_key many_results ≡ₚ many_results ∧
  length (search_jackett (Response 200 (BodyResults (Some many_results))))
  = (length many_results `min` 10)%nat ∧
  ∀ kept dropped,
    kept ∈ take 10 (sort_desc seeders_key many_results) →
    dropped ∈ drop 10 (sort_desc seeders_key many_results) →
    key_ge seeders_key kept dropped.
Proof.
  apply (search_jackett_keeps_the_best_seeded many_results). reflexivity.
Defined.

Example many_results_kept :
  map seeds (search_jackett (Response 200 (BodyResults (Some many_results))))
  = VInt <$> [9; 8; 6; 5; 5; 5; 4; 3; 3; 2].
Proof. reflexivity. Qed.

(** ** The allow-list *)

Lemma chars_append s1 s2 :
  String.list_ascii_of_string (s1 +:+ s2)
  = String.list_ascii_of_string s1 ++ String.list_ascii_of_string s2.
Proof. induction s1 as [|c s1 IH]; simpl; [done|]. by rewrite IH. Qed.

Lemma split_comma_piece a :
  ","%char ∉ a → split_comma a = [a].
Proof.
  induction a as [|c a IH]; intros Hno; simpl; [done|].
  apply not_elem_of_cons in Hno as [Hc Hno].
  rewrite (proj2 (Ascii.eqb_neq _ _)) by done. by rewrite IH.
Qed.

Lemma split_comma_cons a rest :
  ","%char ∉ a → split_comma (a ++ ","%char :: rest) = a :: split_comma rest.
Proof.
  induction a as [|c a IH]; intros Hno; simpl; [done|].
  apply not_elem_of_cons in Hno as [Hc Hno].
  rewrite (proj2 (Ascii.eqb_neq _ _)) by done. by rewrite IH.
Qed.

Lemma digit_not_comma c : is_digit c → c ≠ ","%char.
Proof. intros [d Hd] ->. vm_compute in Hd. discriminate. Qed.

(** The text of an integer: no comma, nothing to strip, and [int] reads it
    back. *)
Lemma pretty_Z_chars (z : Z) :
  let s := String.list_ascii_of_string (pretty z) in
  (","%char ∉ s) ∧ strip s = s ∧ s ≠ [].
Proof.
  assert (∀ p, Forall is_digit p → ","%char ∉ p) as Hcomma.
  { intros p Hp Hin. rewrite Forall_forall in Hp.
    by apply (digit_not_comma _ (Hp _ Hin)). }
  destruct z as [|x|x]; [split; [|done]; by intros [=]%list_elem_of_singleton| |].
  - destruct (pretty_N_chars (N.pos x)) as (p & Hne & Hall & Hp & _).
    change (pretty (Z.pos x)) with (pretty (N.pos x)). cbv zeta. rewrite Hp.
    split; [by apply Hcomma|]. split; [by apply strip_digits|done].
  - destruct (pretty_N_chars (N.pos x)) as (p & Hne & Hall & Hp & _).
    change (pretty (Z.neg x)) with (String "-"%char (pretty (N.pos x))).
    cbv zeta. simpl String.list_ascii_of_string. rewrite Hp.
    split; [|split; [by apply strip_minus_digits|done]].
    apply not_elem_of_cons. split; [done|by apply Hcomma].
Qed.

Lemma py_int_of_pretty_Z (z : Z) : py_int (pretty z) = Ret z.
Proof. unfold py_int. by rewrite parse_int_pretty_Z. Qed.

Lemma allowed_users_of_pretty (ids : list Z) :
  allowed_users_of (map (λ z, String.list_ascii_of_string (pretty z)) ids) = Ret ids.
Proof.
  induction ids as [|z ids IH]; simpl; [done|].
  destruct (pretty_Z_chars z) as (_ & -> & Hne).
  destruct (String.list_ascii_of_string (pretty z)) as [|c s] eqn:Hs; [done|].
  simpl is_empty. cbv iota. rewrite <- Hs.
  rewrite String.string_of_list_ascii_of_string, py_int_of_pretty_Z, IH. done.
Qed.
Lemma split_comma_join (ids : list Z) :
  ids ≠ [] →
  split_comma (String.list_ascii_of_string (comma_join (map pretty ids)))
  = map (λ z, String.list_ascii_of_string (pretty z)) ids.
Proof.
  induction ids as [|z [|z' ids] IH]; intros Hne; [done| |].
  - simpl. apply split_comma_piece. apply (pretty_Z_chars z).
  - change (comma_join (map pretty (z :: z' :: ids)))
      with (pretty z +:+ "," +:+ comma_join (map pretty (z' :: ids))).
    rewrite !chars_append. simpl app.
    rewrite split_comma_cons by apply (pretty_Z_chars z).
    simpl in IH |- *. by rewrite IH.
Qed.

(** X16: the allow-list is read back from its usual spelling: for any list of
    user ids, parsing their decimal texts joined by commas gives that list. *)
Theorem parse_allowed_users_of_comma_join (ids : list Z) :
  parse_allowed_users (comma_join (map pretty ids)) = Ret ids.
Proof.
  unfold parse_allowed_users. destruct ids as [|z ids]; [done|].
  rewrite split_comma_join by done. apply allowed_users_of_pretty.
Qed.

Lemma lstrip_spaces p : Forall (λ c, is_space c = true) p → lstrip p = [].
Proof. induction 1 as [|c p Hc _ IH]; simpl; [done|]. by rewrite Hc. Qed.

Lemma strip_spaces p : Forall (λ c, is_space c = true) p → strip p = [].
Proof. intros Hp. unfold strip. by rewrite (lstrip_spaces p Hp). Qed.

Lemma split_comma_blank s :
  Forall (λ c, c = ","%char ∨ is_space c = true) s →
  Forall (Forall (λ c, is_space c = true)) (split_comma s).
Proof.
  induction 1 as [|c s Hc _ IH]; simpl; [by repeat constructor|].
  destruct (Ascii.eqb_spec c ",") as [->|Hne]; [by constructor|].
  destruct Hc as [->|Hc]; [done|].
  destruct (split_comma s) as [|piece pieces]; [by repeat constructor|].
  apply Forall_cons in IH as [Hpiece Hpieces].
  constructor; [by constructor|done].
Qed.

Lemma allowed_users_of_blank pieces :
  Forall (Forall (λ c, is_space c = true)) pieces →
  allowed_users_of pieces = Ret [].
Proof.
  induction 1 as [|piece pieces Hpiece _ IH]; simpl; [done|].
  by rewrite (strip_spaces piece Hpiece).
Qed.

(** X17: [main] starts polling exactly when the allow-list parses to at least
    one user id and the token, the API key, the user name and the password
    are all set; the bot then runs with the parsed allow-list.  An allow-list
    made of commas and white space only (the empty one included) parses to no
    user at all, and [main] then returns, naming [ALLOWED_TELEGRAM_USERS]
    among what is missing. *)
Theorem main_polls_with_complete_settings_only (cfg : settings) :
  (∀ ALLOWED_USERS,
     main cfg = Polls ALLOWED_USERS ↔
     parse_allowed_users (ALLOWED_TELEGRAM_USERS cfg) = Ret ALLOWED_USERS ∧
     ALLOWED_USERS ≠ [] ∧
     TELEGRAM_BOT_TOKEN cfg ≠ "" ∧ JACKETT_API_KEY cfg ≠ "" ∧
     TRANSMISSION_USER cfg ≠ "" ∧ TRANSMISSION_PASSWORD cfg ≠ "") ∧
  (blank (ALLOWED_TELEGRAM_USERS cfg) →
   parse_allowed_users (ALLOWED_TELEGRAM_USERS cfg) = Ret [] ∧
   ∃ missing, main cfg = Exits missing ∧ "ALLOWED_TELEGRAM_USERS" ∈ missing).
Proof.
  split.
  - intros users. unfold main, missing_vars, append_if.
    destruct (parse_allowed_users _) as [parsed|ex];
      [|by split; [|intros [? _]]].
    destruct (String.eqb_spec (TELEGRAM_BOT_TOKEN cfg) ""),
      (String.eqb_spec (JACKETT_API_KEY cfg) ""),
      (String.eqb_spec (TRANSMISSION_USER cfg) ""),
      (String.eqb_spec (TRANSMISSION_PASSWORD cfg) ""),
      parsed as [|uid parsed]; simpl;
      (split; [intros [= <-]; by repeat split|by intros ([= <-] & ? & ? & ? & ? & ?)]).
  - intros Hblank.
    assert (parse_allowed_users (ALLOWED_TELEGRAM_USERS cfg) = Ret []) as Hparse.
    { apply allowed_users_of_blank, split_comma_blank, Hblank. }
    split; [done|]. unfold main. rewrite Hparse.
    assert ("ALLOWED_TELEGRAM_USERS" ∈ missing_vars cfg []) as Hin.
    { unfold missing_vars. simpl is_empty. unfold append_if at 1.
      apply elem_of_app. right. by left. }
    destruct (missing_vars cfg []) as [|var vars] eqn:Hm;
      [by apply elem_of_nil in Hin|].
    simpl. by eexists.
Qed.

Lemma main_polls_with_complete_settings_only_witness :
  parse_allowed_users "" = Ret [] ∧
  ∃ missing,
    main (Settings "token" "key" "pi" "secret" "") = Exits missing ∧
    "ALLOWED_TELEGRAM_USERS" ∈ missing.
Proof.
  apply (main_polls_with_complete_settings_only
           (Settings "token" "key" "pi" "secret" "")).
  constructor.
Defined.

Example allow_list_with_blanks : parse_allowed_users " 1, 2,,3 " = Ret [1; 2; 3].
Proof. reflexivity. Qed.

Example allow_list_with_a_name :
  parse_allowed_users "1,alice"
  = Raise (Exn ValueError "invalid literal for int() with base 10: 'alice'").
Proof. reflexivity. Qed.

(** ** Button labels *)

Lemma length_append s1 s2 :
  String.length (s1 +:+ s2) = (String.length s1 + String.length s2)%nat.
Proof. induction s1 as [|c s1 IH]; simpl; [done|]. by rewrite IH. Qed.

Lemma substring_length_exact m s :
  (m ≤ String.length s)%nat → String.length (String.substring 0 m s) = m.
Proof.
  revert s. induction m as [|m IH]; intros [|c s]; simpl; try lia.
  intros Hm. rewrite IH; lia.
Qed.

Lemma truncated_length text :
  (String.length
     (if (80 <? String.length text)%nat
      then String.substring 0 77 text +:+ "..." else text) ≤ 80)%nat.
Proof.
  destruct (Nat.ltb_spec 80 (String.length text)) as [Hlong|Hshort]; [|done].
  rewrite length_append, substring_length_exact by lia. simpl. lia.
Qed.

(** X15: a button label never has more than 80 characters, whatever the title,
    the tracker and the formatted size are. *)
Theorem button_text_fits (fmt_2f : Z → Z → string) (l : button_label) :
  (String.length (button_text fmt_2f l) ≤ 80)%nat.
Proof.
  destruct l as [number torrent size|]; [|simpl; lia].
  unfold button_text.
  match goal with
  | |- context [String.substring 0 77 ?text] =>
      exact (truncated_length text)
  end.
Qed.

(** ** Leaving a pending selection, and starting over *)

(** X10: while a selection is awaited only a button press or the cancel command
    is handled: every other update (a query, /start, /status, any other
    command) changes nothing and gets no answer.  A button press leads back to
    [SEARCH], the cancel command ends the conversation. *)
Theorem pending_selection_ends_by_button_or_cancel
    (ALLOWED_USERS : list Z) (e : env) (b : bot) (user_id : Z) (c : update_kind) :
  conversation_state b user_id = SELECT_TORRENT →
  match c with
  | CallbackQuery data =>
      conversation_state
        (handle_update ALLOWED_USERS e b (Update user_id c)).1 user_id = SEARCH
  | Command cmd =>
      if String.eqb cmd "cancel" then
        conversation_state
          (handle_update ALLOWED_USERS e b (Update user_id c)).1 user_id = END
      else handle_update ALLOWED_USERS e b (Update user_id c) = (b, [])
  | TextMessage _ =>
      handle_update ALLOWED_USERS e b (Update user_id c) = (b, [])
  end.
Proof.
  intros Hs. unfold handle_update. simpl. rewrite Hs.
  destruct c as [cmd|text|data]; simpl.
  - destruct (String.eqb cmd "cancel"); simpl; [|done].
    exact (conversation_state_update b _ user_id END).
  - done.
  - destruct (select_torrent_cases e user_id data (cache b)) as [tr [-> | ->]];
      simpl; exact (conversation_state_update b _ user_id SEARCH).
Qed.

Lemma pending_selection_ends_by_button_or_cancel_witness :
  handle_update [1] all_up awaiting (Update 1 (TextMessage "debian")) = (awaiting, []).
Proof.
  exact (pending_selection_ends_by_button_or_cancel [1] all_up awaiting 1
           (TextMessage "debian") eq_refl).
Defined.

(** ** Conversations by chat, edited messages *)

Lemma chat_state_update b c chat_id user_id s :
  chat_state (ChatBot (update_chat_state (chat_id, user_id) s (chat_conversations b)) c)
    chat_id user_id = s.
Proof.
  unfold chat_state, update_chat_state. simpl.
  destruct s; by rewrite ?lookup_insert_eq, ?lookup_delete_eq.
Qed.

Lemma chat_state_update_ne b c key chat_id user_id s :
  key ≠ (chat_id, user_id) →
  chat_state (ChatBot (update_chat_state key s (chat_conversations b)) c)
    chat_id user_id = chat_state b chat_id user_id.
Proof.
  intros Hne. unfold chat_state, update_chat_state. simpl.
  destruct s; by rewrite ?lookup_insert_ne, ?lookup_delete_ne.
Qed.

(** What a callback does on any update: the cache is as it was, or without
    the user's entry, or with the adapter's non-empty result set stored for
    the user, who is then allowed; [SELECT_TORRENT] is returned only with an
    entry stored; and on an update that is not an edited message a state is
    returned, [END] only without an entry or to a user who is refused. *)
Lemma run_delivered_summary ALLOWED_USERS e user_id d h c :
  ∃ o c' tr,
    run_delivered ALLOWED_USERS e user_id d h (World c []) = (o, World c' tr) ∧
    (c' = c ∨ c' = delete user_id c ∨
     ∃ query, user_id ∈ ALLOWED_USERS ∧
              search_jackett (jackett e query) ≠ [] ∧
              c' = <[user_id := search_jackett (jackett e query)]> c) ∧
    (o = Ret SELECT_TORRENT → is_Some (c' !! user_id)) ∧
    (is_edited d = false →
     ∃ s, o = Ret s ∧
          (s = END → c' !! user_id = None ∨ c' = c ∧ user_id ∉ ALLOWED_USERS)).
Proof.
  unfold run_delivered. destruct (is_edited d) eqn:Hd.
  - destruct h as [|query|data| |].
    + unfold start_edited, check_user_edited, is_user_allowed. run_M.
      case_bool_decide; simpl; eexists _, _, _; (split; [reflexivity|]);
        (split; [by left|]); by split.
    + unfold search_torrent_edited, check_user_edited, is_user_allowed. run_M.
      case_bool_decide; simpl; eexists _, _, _; (split; [reflexivity|]);
        (split; [by left|]); by split.
    + destruct (select_torrent_cases e user_id data c) as [tr [-> | ->]];
        eexists _, _, _; (split; [reflexivity|]);
        (split; [by (left + (right; left))|]); by split.
    + unfold status_edited, check_user_edited, is_user_allowed. run_M.
      case_bool_decide; simpl; [split_cases|];
        eexists _, _, _; (split; [reflexivity|]); (split; [by left|]); by split.
    + unfold cancel_edited. run_M. eexists _, _, _. split; [reflexivity|].
      split; [right; by left|]. by split.
  - destruct (run_callback_summary ALLOWED_USERS e user_id h c)
      as (s & c' & tr & Hrun & _ & Hsel & Hend).
    destruct (run_callback_stored ALLOWED_USERS e user_id h c)
      as (s2 & c2 & tr2 & Hrun2 & Hc).
    rewrite Hrun in Hrun2. injection Hrun2 as <- <- <-.
    exists (Ret s), c', tr. split; [done|]. split; [done|]. split.
    + intros [= ->]. by apply Hsel.
    + intros _. exists s. split; [done|]. intros Hs.
      destruct (Hend Hs) as [?|(? & _ & ?)]; auto.
Qed.

(** One update changes the cache at the key of its user only, and the
    conversation of its chat and user only. *)
Lemma handle_chat_update_other ALLOWED_USERS e b u chat_id user_id :
  from_user u ≠ user_id →
  let b' := (handle_chat_update ALLOWED_USERS e b u).1 in
  chat_state b' chat_id user_id = chat_state b chat_id user_id ∧
  chat_cache b' !! user_id = chat_cache b !! user_id.
Proof.
  intros Hne. unfold handle_chat_update.
  destruct (check_update _ _) as [h|]; [|done].
  destruct (run_delivered_summary ALLOWED_USERS e (from_user u) (delivery u) h
              (chat_cache b)) as (o & c' & tr & -> & Hc & _).
  assert (c' !! user_id = chat_cache b !! user_id) as Hsame.
  { destruct Hc as [->|[->|(query & _ & _ & ->)]];
      by rewrite ?lookup_delete_ne, ?lookup_insert_ne. }
  destruct o as [s|ex]; simpl; (split; [|done]); [|done].
  apply chat_state_update_ne. congruence.
Qed.

Lemma handle_chat_update_well_formed ALLOWED_USERS e b u :
  (∀ user_id results, chat_cache b !! user_id = Some results →
                      user_id ∈ ALLOWED_USERS ∧ result_set results) →
  ∀ user_id results,
    chat_cache (handle_chat_update ALLOWED_USERS e b u).1 !! user_id = Some results →
    user_id ∈ ALLOWED_USERS ∧ result_set results.
Proof.
  intros Hinv. unfold handle_chat_update.
  destruct (check_update _ _) as [h|]; [|done].
  destruct (run_delivered_summary ALLOWED_USERS e (from_user u) (delivery u) h
              (chat_cache b)) as (o & c' & tr & -> & Hc & _).
  assert (∀ user_id results, c' !! user_id = Some results →
            user_id ∈ ALLOWED_USERS ∧ result_set results) as Hc'.
  { intros user_id results.
    destruct Hc as [->|[->|(query & Hin & Hne & ->)]].
    - apply Hinv.
    - intros [_ Hl]%lookup_delete_Some. by apply Hinv.
    - intros [[<- <-]|[_ Hl]]%lookup_insert_Some.
      + split; [done|]. by apply search_jackett_result_set.
      + by apply Hinv. }
  by destruct o.
Qed.

Lemma chat_run_well_formed ALLOWED_USERS events b :
  (∀ user_id results, chat_cache b !! user_id = Some results →
                      user_id ∈ ALLOWED_USERS ∧ result_set results) →
  ∀ user_id results,
    chat_cache (chat_run ALLOWED_USERS b events) !! user_id = Some results →
    user_id ∈ ALLOWED_USERS ∧ result_set results.
Proof.
  revert b. induction events as [|[e u] events IH]; intros b Hb; simpl; [done|].
  by apply IH, handle_chat_update_well_formed.
Qed.

(** A user who writes in one chat and edits no message: while the
    conversation awaits a selection there is an entry, and, for an allowed
    user, there is none outside a conversation. *)
Lemma handle_chat_update_entry ALLOWED_USERS e b u chat_id user_id :
  (from_user u = user_id →
   effective_chat u = chat_id ∧ is_edited (delivery u) = false) →
  let b' := (handle_chat_update ALLOWED_USERS e b u).1 in
  ((chat_state b chat_id user_id = SELECT_TORRENT →
    is_Some (chat_cache b !! user_id)) →
   chat_state b' chat_id user_id = SELECT_TORRENT →
   is_Some (chat_cache b' !! user_id)) ∧
  (user_id ∈ ALLOWED_USERS →
   (chat_state b chat_id user_id = END → chat_cache b !! user_id = None) →
   chat_state b' chat_id user_id = END → chat_cache b' !! user_id = None).
Proof.
  intros Hu b'. subst b'.
  destruct (decide (from_user u = user_id)) as [Heq|Hne].
  - destruct (Hu Heq) as [Hchat Hfresh]. subst user_id chat_id.
    unfold handle_chat_update.
    destruct (check_update _ _) as [h|]; [|done].
    destruct (run_delivered_summary ALLOWED_USERS e (from_user u) (delivery u) h
                (chat_cache b)) as (o & c' & tr & -> & _ & Hsel & Hret).
    destruct (Hret Hfresh) as (s & -> & Hend). simpl.
    rewrite (chat_state_update b c' (effective_chat u) (from_user u) s).
    split.
    + intros _ ->. by apply Hsel.
    + intros Hin _ ->. destruct (Hend eq_refl) as [?|[_ ?]]; done.
  - destruct (handle_chat_update_other ALLOWED_USERS e b u chat_id user_id Hne)
      as [-> ->]. auto.
Qed.

Lemma chat_run_entry ALLOWED_USERS events b chat_id user_id :
  writes_in chat_id user_id events →
  let b' := chat_run ALLOWED_USERS b events in
  ((chat_state b chat_id user_id = SELECT_TORRENT →
    is_Some (chat_cache b !! user_id)) →
   chat_state b' chat_id user_id = SELECT_TORRENT →
   is_Some (chat_cache b' !! user_id)) ∧
  (user_id ∈ ALLOWED_USERS →
   (chat_state b chat_id user_id = END → chat_cache b !! user_id = None) →
   chat_state b' chat_id user_id = END → chat_cache b' !! user_id = None).
Proof.
  revert b. induction events as [|[e u] events IH]; intros b Hall; simpl.
  { auto. }
  apply Forall_cons in Hall as [Hu Hall].
  destruct (handle_chat_update_entry ALLOWED_USERS e b u chat_id user_id Hu)
    as [Hsel Hend].
  destruct (IH (handle_chat_update ALLOWED_USERS e b u).1 Hall) as [IHsel IHend].
  split.
  - intros Hb. by apply IHsel, Hsel.
  - intros Hin Hb. by apply IHend, Hend.
Qed.

(** X8: as long as a user writes in one chat and edits no message, whatever
    the others do, a conversation of that user that is in [SELECT_TORRENT]
    has a cache entry, index 0 is a valid selection for it, and every cached
    result has the seven fields of a formatted result. *)
Theorem awaiting_user_can_select
    (ALLOWED_USERS : list Z) (events : list (env * chat_update))
    (chat_id user_id : Z) :
  writes_in chat_id user_id events →
  chat_state (chat_run ALLOWED_USERS chat_initial events) chat_id user_id
  = SELECT_TORRENT →
  ∃ results first,
    chat_cache (chat_run ALLOWED_USERS chat_initial events) !! user_id
    = Some results ∧
    list_index results 0 = Ret first ∧
    (0 < length results ≤ 10)%nat ∧
    Forall (λ t, ∀ field,
              field ∈ ["id"; "title"; "size"; "seeds"; "peers"; "magnet"; "tracker"] →
              is_Some (t !! field)) results.
Proof.
  intros Hone Hs.
  destruct (chat_run_entry ALLOWED_USERS events chat_initial chat_id user_id Hone)
    as [Hsel _].
  destruct Hsel as [results Hresults]; [by intros ?|done|].
  destruct (chat_run_well_formed ALLOWED_USERS events chat_initial) with
    (user_id := user_id) (results := results) as (_ & Hne & Hlen & _ & Hfmt);
    [intros ? ? Hl; simpl in Hl; by rewrite lookup_empty in Hl|done|].
  destruct results as [|first results]; [done|].
  exists (first :: results), first. split; [done|]. split; [done|].
  split; [simpl in *; lia|].
  eapply Forall_impl; [exact Hfmt|]. intros t [r ->] field Hfield.
  destruct (format_result_lookup r) as (H1 & H2 & H3 & H4 & H5 & H6 & H7).
  repeat (apply elem_of_cons in Hfield as [->|Hfield]; [by eexists|]).
  by apply elem_of_nil in Hfield.
Qed.

Lemma one_writes_in_chat_10 :
  writes_in 10 1
    (search_in_chat_10
     ++ [(all_up, ChatUpdate 20 2 (Fresh (Command "start")));
         (all_up, ChatUpdate 20 2 (EditedCommand "cancel"))]).
Proof.
  repeat (apply Forall_cons; split); try (by apply Forall_nil);
    simpl; intros ?; (done || by split).
Qed.

Lemma awaiting_user_can_select_witness :
  ∃ results first,
    chat_cache
      (chat_run [1; 2] chat_initial
         (search_in_chat_10
          ++ [(all_up, ChatUpdate 20 2 (Fresh (Command "start")));
              (all_up, ChatUpdate 20 2 (EditedCommand "cancel"))])) !! 1
    = Some results ∧
    list_index results 0 = Ret first ∧
    (0 < length results ≤ 10)%nat ∧
    Forall (λ t, ∀ field,
              field ∈ ["id"; "title"; "size"; "seeds"; "peers"; "magnet"; "tracker"] →
              is_Some (t !! field)) results.
Proof.
  exact (awaiting_user_can_select [1; 2] _ 10 1 one_writes_in_chat_10 eq_refl).
Defined.

(** X19: one entry for a user, one conversation for each chat of the user.
    User 1 searches in chat 10 and then starts and cancels a conversation in
    chat 20: the conversation of chat 10 still awaits a selection, the entry
    is gone, and a button of the keyboard of chat 10 is answered with the
    invalid-selection message. *)
Lemma second_chat_removes_the_entry :
  let b := chat_run [1] chat_initial (search_in_chat_10 ++ cancel_in_chat_20) in
  chat_state b 10 1 = SELECT_TORRENT ∧
  chat_cache b !! 1 = None ∧
  (handle_chat_update [1] all_up b (ChatUpdate 10 1 (Fresh (CallbackQuery "0")))).2
  = [AnswerQuery; EditText InvalidSelection].
Proof. repeat split. Qed.

(** An edited /cancel while a selection is awaited removes the entry, fails
    on its reply and leaves the conversation where it was. *)
Lemma edited_cancel_removes_the_entry :
  let b := chat_run [1] chat_initial
             (search_in_chat_10
              ++ [(all_up, ChatUpdate 10 1 (EditedCommand "cancel"))]) in
  chat_state b 10 1 = SELECT_TORRENT ∧ chat_cache b !! 1 = None.
Proof. repeat split. Qed.

(** X11: starting over works.  As long as an allowed user writes in one chat
    and edits no message, whatever the others do, when that user sends
    /cancel and then /start in that chat, the conversation is in [SEARCH]
    with no cache entry, and the user is greeted. *)
Theorem cancel_then_start_resets
    (ALLOWED_USERS : list Z) (events : list (env * chat_update)) (e1 e2 : env)
    (chat_id user_id : Z) :
  user_id ∈ ALLOWED_USERS →
  writes_in chat_id user_id events →
  let b := chat_run ALLOWED_USERS chat_initial events in
  let b1 := (handle_chat_update ALLOWED_USERS e1 b
               (ChatUpdate chat_id user_id (Fresh (Command "cancel")))).1 in
  let b2 := (handle_chat_update ALLOWED_USERS e2 b1
               (ChatUpdate chat_id user_id (Fresh (Command "start")))).1 in
  chat_state b2 chat_id user_id = SEARCH ∧
  chat_cache b2 !! user_id = None ∧
  (handle_chat_update ALLOWED_USERS e2 b1
     (ChatUpdate chat_id user_id (Fresh (Command "start")))).2
  = [ReplyText Greeting].
Proof.
  intros Hin Hone b b1 b2.
  destruct (chat_run_entry ALLOWED_USERS events chat_initial chat_id user_id Hone)
    as [_ Hend].
  specialize (Hend Hin (λ _, lookup_empty _)). fold b in Hend.
  assert (chat_state b1 chat_id user_id = END ∧ chat_cache b1 !! user_id = None)
    as [Hs1 Hc1].
  { subst b1. unfold handle_chat_update. simpl.
    destruct (chat_state b chat_id user_id) eqn:Hs; simpl.
    - split; [exact (chat_state_update b _ chat_id user_id END)|].
      apply lookup_delete_eq.
    - split; [exact (chat_state_update b _ chat_id user_id END)|].
      apply lookup_delete_eq.
    - split; [done|]. by apply Hend. }
  subst b2. unfold handle_chat_update. simpl. rewrite Hs1. simpl.
  unfold run_delivered. simpl. unfold start. run_M. rewrite check_user_allowed by done. simpl.
  split; [|done]. exact (chat_state_update b1 _ chat_id user_id SEARCH).
Qed.

Lemma cancel_then_start_resets_witness :
  let b := chat_run [1] chat_initial search_in_chat_10 in
  let b1 := (handle_chat_update [1] all_up b
               (ChatUpdate 10 1 (Fresh (Command "cancel")))).1 in
  let b2 := (handle_chat_update [1] all_up b1
               (ChatUpdate 10 1 (Fresh (Command "start")))).1 in
  chat_state b2 10 1 = SEARCH ∧
  chat_cache b2 !! 1 = None ∧
  (handle_chat_update [1] all_up b1
     (ChatUpdate 10 1 (Fresh (Command "start")))).2 = [ReplyText Greeting].
Proof.
  apply (cancel_then_start_resets [1] search_in_chat_10 all_up all_up 10 1
           one_allowed).
  repeat (apply Forall_cons; split); try (by apply Forall_nil); by intros _.
Defined.

(** The entry stored from one chat survives a start in another: after the
    search of chat 10, /cancel in chat 20 is not handled, and /start there
    leaves the user in [SEARCH] with the three results still cached. *)
Lemma start_in_second_chat_keeps_the_entry :
  let b := chat_run [1] chat_initial search_in_chat_10 in
  let b1 := (handle_chat_update [1] all_up b
               (ChatUpdate 20 1 (Fresh (Command "cancel")))).1 in
  let b2 := (handle_chat_update [1] all_up b1
               (ChatUpdate 20 1 (Fresh (Command "start")))).1 in
  b1 = b ∧ chat_state b2 20 1 = SEARCH ∧
  length <$> chat_cache b2 !! 1 = Some 3%nat.
Proof. repeat split. Qed.

(** ** Every update is answered *)

Lemma check_update_edited s d h :
  is_edited d = true → check_update s (update_kind_of d) = Some h →
  h = h_start ∨ (∃ query, h = h_search_torrent query) ∨ h = h_status ∨ h = h_cancel.
Proof.
  intros Hd. destruct d as [c|command|text]; [done| |]; destruct s; simpl;
    intros H; repeat (case_match; simpl in * ); simplify_eq; eauto 6.
Qed.

(** X12: an update that no handler matches is ignored.  No exception leaves
    the callback of an update that is a new message or a callback query: the
    callback returns a state, sends the user at least one message, and the
    message of [error_handler] is not sent.  On an edited message that a
    handler matches, the callback raises [AttributeError] without having
    sent a message: the user gets the message of [error_handler] only, the
    conversation keeps its state, and the cache is as it was, or without the
    user's entry after an edited /cancel. *)
Theorem callbacks_catch_and_answer
    (ALLOWED_USERS : list Z) (e : env) (b : chat_bot) (u : chat_update) :
  match check_update (chat_state b (effective_chat u) (from_user u))
          (update_kind_of (delivery u)) with
  | None => handle_chat_update ALLOWED_USERS e b u = (b, [])
  | Some h =>
      if is_edited (delivery u) then
        ∃ ex c' tr,
          run_delivered ALLOWED_USERS e (from_user u) (delivery u) h
            (World (chat_cache b) [])
          = (Raise ex, World c' tr) ∧
          kind ex = AttributeError ∧
          handle_chat_update ALLOWED_USERS e b u
          = (ChatBot (chat_conversations b) c', tr ++ [ReplyText ErrorOccurred]) ∧
          existsb is_message tr = false ∧
          (c' = chat_cache b
           ∨ h = h_cancel ∧ c' = delete (from_user u) (chat_cache b))
      else
        ∃ s c' tr,
          run_callback ALLOWED_USERS e (from_user u) h (World (chat_cache b) [])
          = (Ret s, World c' tr) ∧
          handle_chat_update ALLOWED_USERS e b u
          = (ChatBot (update_chat_state (effective_chat u, from_user u) s
                        (chat_conversations b)) c', tr) ∧
          existsb is_message tr = true ∧
          existsb is_error_handler_reply tr = false
  end.
Proof.
  unfold handle_chat_update.
  destruct (check_update _ _) as [h|] eqn:Hcheck; [|done].
  unfold run_delivered. destruct (is_edited (delivery u)) eqn:Hd.
  - destruct (check_update_edited _ _ _ Hd Hcheck)
      as [->|[[query ->]|[->| ->]]].
    + unfold start_edited, check_user_edited, is_user_allowed. run_M.
      case_bool_decide; simpl; eexists _, _, _; (split; [reflexivity|]);
        (split; [done|]); (split; [reflexivity|]); split; auto.
    + unfold search_torrent_edited, check_user_edited, is_user_allowed. run_M.
      case_bool_decide; simpl; eexists _, _, _; (split; [reflexivity|]);
        (split; [done|]); (split; [reflexivity|]); split; auto.
    + unfold status_edited, check_user_edited, is_user_allowed. run_M.
      case_bool_decide; simpl; [split_cases|];
        eexists _, _, _; (split; [reflexivity|]);
        (split; [done|]); (split; [reflexivity|]); split; auto.
    + unfold cancel_edited. run_M. eexists _, _, _. split; [reflexivity|].
      split; [done|]. split; [reflexivity|]. split; auto.
  - destruct h as [|query|data| |]; simpl.
    + unfold start, check_user, is_user_allowed. run_M.
      case_bool_decide; simpl; callback_cases; by split.
    + unfold search_torrent, check_user, is_user_allowed. run_M.
      case_bool_decide; simpl; [split_cases|]; callback_cases; by split.
    + unfold select_torrent. run_M. split_cases; callback_cases; by split.
    + unfold status, check_user, is_user_allowed. run_M.
      case_bool_decide; simpl; [split_cases|]; callback_cases; by split.
    + unfold cancel. run_M. callback_cases; by split.
Qed.

(** An edited text of an allowed user in [SEARCH]: [update.message.text]
    fails, nothing is searched, and the user gets the message of
    [error_handler]. *)
Lemma edited_text_fails :
  handle_chat_update [1] all_up
    (chat_run [1] chat_initial [(all_up, ChatUpdate 10 1 (Fresh (Command "start")))])
    (ChatUpdate 10 1 (EditedText "ubuntu"))
  = (chat_run [1] chat_initial [(all_up, ChatUpdate 10 1 (Fresh (Command "start")))],
     [ReplyText ErrorOccurred]).
Proof. reflexivity. Qed.

(** ** The bot keyed by user *)

Lemma handle_chat_update_agrees ALLOWED_USERS home e cb b u :
  effective_chat u = home (from_user u) → is_edited (delivery u) = false →
  same_conversations home cb b →
  same_conversations home (handle_chat_update ALLOWED_USERS e cb u).1
    (handle_update ALLOWED_USERS e b (as_update u)).1 ∧
  (handle_chat_update ALLOWED_USERS e cb u).2
  = (handle_update ALLOWED_USERS e b (as_update u)).2.
Proof.
  intros Hhome Hfresh [Hstates Hcache].
  unfold handle_chat_update, handle_update, run_delivered. simpl.
  rewrite Hfresh, Hhome, Hstates, Hcache.
  destruct (check_update _ _) as [h|]; [|by split].
  destruct (run_callback ALLOWED_USERS e (from_user u) h (World (cache b) []))
    as [[s|ex] w]; simpl; (split; [|done]); (split; [|done]); intros user_id.
  - destruct (decide (from_user u = user_id)) as [<-|Hne].
    + rewrite (chat_state_update cb _ (home (from_user u)) (from_user u) s).
      by rewrite (conversation_state_update b _ (from_user u) s).
    + rewrite chat_state_update_ne by congruence.
      rewrite conversation_state_update_ne by done. apply Hstates.
  - apply Hstates.
Qed.

(** X18: the bot keyed by user is the program as long as every user writes
    in one chat and no message is edited.  On such updates it is in step with
    the bot that keeps one conversation for each chat and user: the same
    conversation states, the same cache, and the same calls and messages on
    the next update. *)
Theorem one_chat_each_is_the_user_keyed_bot
    (ALLOWED_USERS : list Z) (home : Z → Z) (events : list (env * chat_update))
    (e : env) (u : chat_update) :
  one_chat_each home (events ++ [(e, u)]) →
  let cb := chat_run ALLOWED_USERS chat_initial events in
  let b := run ALLOWED_USERS initial (map (λ event, (event.1, as_update event.2)) events) in
  same_conversations home cb b ∧
  handle_chat_update ALLOWED_USERS e cb u
  = (ChatBot (chat_conversations (handle_chat_update ALLOWED_USERS e cb u).1)
       (cache (handle_update ALLOWED_USERS e b (as_update u)).1),
     (handle_update ALLOWED_USERS e b (as_update u)).2).
Proof.
  intros Hall cb b.
  apply Forall_app in Hall as [Hevents Hu].
  apply Forall_cons in Hu as [[Hhome Hfresh] _]. simpl in Hhome, Hfresh.
  assert (∀ cb0 b0, same_conversations home cb0 b0 →
            same_conversations home (chat_run ALLOWED_USERS cb0 events)
              (run ALLOWED_USERS b0
                 (map (λ event, (event.1, as_update event.2)) events))) as Hrun.
  { clear cb b. induction events as [|[e0 u0] events IH]; intros cb0 b0 Hsame;
      simpl; [done|].
    apply Forall_cons in Hevents as [[Hhome0 Hfresh0] Hevents].
    apply IH; [done|].
    by apply handle_chat_update_agrees. }
  assert (same_conversations home cb b) as Hsame.
  { apply Hrun. by split. }
  split; [done|].
  destruct (handle_chat_update_agrees ALLOWED_USERS home e cb b u Hhome Hfresh Hsame)
    as [[_ Hcache] Htrace].
  rewrite <- Hcache, <- Htrace.
  by destruct (handle_chat_update ALLOWED_USERS e cb u) as [[] ?].
Qed.

Lemma one_chat_each_is_the_user_keyed_bot_witness :
  let cb := chat_run [1] chat_initial search_in_chat_10 in
  let b := run [1] initial
             (map (λ event, (event.1, as_update event.2)) search_in_chat_10) in
  same_conversations (λ _, 10) cb b ∧
  handle_chat_update [1] all_up cb (ChatUpdate 10 1 (Fresh (CallbackQuery "1")))
  = (ChatBot
       (chat_conversations
          (handle_chat_update [1] all_up cb
             (ChatUpdate 10 1 (Fresh (CallbackQuery "1")))).1)
       (cache (handle_update [1] all_up b
                 (as_update (ChatUpdate 10 1 (Fresh (CallbackQuery "1"))))).1),
     (handle_update [1] all_up b
        (as_update (ChatUpdate 10 1 (Fresh (CallbackQuery "1"))))).2).
Proof.
  apply (one_chat_each_is_the_user_keyed_bot [1] (λ _, 10) search_in_chat_10
           all_up (ChatUpdate 10 1 (Fresh (CallbackQuery "1")))).
  repeat (apply Forall_cons; split); try (by apply Forall_nil); by split.
Defined.
